(** * Verification of the benchmark-log parser ([archive/a.py])

    The script's only function, [parse_benchmark_log], reads a text file,
    runs three [re.findall] scans over it and converts the captures with
    [int] and [float].  This file embeds

    - the exceptions and the file access of the script as a small
      state-and-error monad over a [world] (the files and the open handles);
    - the fragment of Python's [re] that the three patterns use, as a
      backtracking matcher, with [findall]'s scanning loop;
    - the builtins [int] and [float] on strings, the latter rounding
      correctly to binary64 ([spec_float] of the Standard Library);
    - [parse_benchmark_log] itself, statement by statement.

    Text is a list of characters with code points below 256.  On that range
    the decimal digits of Unicode (category Nd, what [\d] matches and what
    [int] and [float] accept) are exactly ['0'] .. ['9'].  The interpreter's
    bound on the number of digits that [int] converts
    ([sys.get_int_max_str_digits()]) is a parameter of the model. *)

From Stdlib Require Import Ascii String.
From Stdlib Require Import List ZArith NArith Bool Arith Lia.
From Stdlib Require Import Floats.SpecFloat.
From Stdlib Require Import DecimalN.
Import ListNotations.

Definition text := list ascii.

(** A string literal read as text. *)
Definition txt (s : string) : text := list_ascii_of_string s.

(** ** Exceptions and results *)

(** The exceptions of the function: those of the conversions
    ([ValueError]) and those that opening and reading a file can end in. *)
Inductive exn :=
| FileNotFoundError
| IsADirectoryError
| PermissionError
| OSError
| UnicodeDecodeError
| ValueError.

Inductive result (A : Type) :=
| Ok (a : A)
| Raise (e : exn).

Arguments Ok {A} a.
Arguments Raise {A} e.

(** [list(map(f, xs))]: the elements are converted from left to right and
    the first exception ends the evaluation. *)
Fixpoint list_map {A B : Type} (f : A -> result B) (xs : list A) : result (list B) :=
  match xs with
  | [] => Ok []
  | x :: xs' =>
      match f x with
      | Raise e => Raise e
      | Ok y =>
          match list_map f xs' with
          | Raise e => Raise e
          | Ok ys => Ok (y :: ys)
          end
      end
  end.

(** ** The world: files and open handles *)

Definition path := text.

(** What the system holds under a path, as [open] and [read] find it.
    [NoOpen e]: [open] raises [e] ([FileNotFoundError] for a name without a
    file, [IsADirectoryError] for a directory, [PermissionError],
    [ValueError] for a name with a NUL character, [OSError] for the rest).
    [NoRead e]: the file opens and [read] raises [e] ([UnicodeDecodeError]
    for bytes that are no text).  [Content data]: the text that
    [file.read()] returns in text mode (the bytes decoded, the line ends
    translated). *)
Inductive file :=
| NoOpen (e : exn)
| NoRead (e : exn)
| Content (data : text).

Record world := World {
  files : path -> file;
  handles : list path            (* the files currently open *)
}.

Definition M (A : Type) := world -> result A * world.

Definition ret {A : Type} (a : A) : M A := fun w => (Ok a, w).

Definition bind {A B : Type} (m : M A) (f : A -> M B) : M B :=
  fun w =>
    match m w with
    | (Ok a, w') => f a w'
    | (Raise e, w') => (Raise e, w')
    end.

Definition lift {A : Type} (r : result A) : M A := fun w => (r, w).

Notation "x <- m ;; f" := (bind m (fun x => f))
  (at level 61, m at next level, right associativity).

(** [open(file_path, 'r')] *)
Definition open (p : path) : M path :=
  fun w =>
    match files w p with
    | NoOpen e => (Raise e, w)
    | _ => (Ok p, World (files w) (p :: handles w))
    end.

(** [file.read()] *)
Definition read (h : path) : M text :=
  fun w =>
    match files w h with
    | Content data => (Ok data, w)
    | NoRead e => (Raise e, w)
    | NoOpen e => (Raise e, w)
    end.

Fixpoint remove_first (h : path) (hs : list path) : list path :=
  match hs with
  | [] => []
  | h' :: hs' =>
      if list_eq_dec ascii_dec h h' then hs' else h' :: remove_first h hs'
  end.

Definition close (h : path) : M unit :=
  fun w => (Ok tt, World (files w) (remove_first h (handles w))).

(** [with open(p, 'r') as file: body]: the file is closed when the block is
    left, also by an exception. *)
Definition with_open {A : Type} (p : path) (body : path -> M A) : M A :=
  fun w =>
    match open p w with
    | (Raise e, w') => (Raise e, w')
    | (Ok h, w') =>
        let (r, w'') := body h w' in
        (r, snd (close h w''))
    end.

(** ** The fragment of [re] used by the script *)

Module Re.

(** Every pattern of the script is a sequence of literal characters followed
    by one group that holds a greedy repetition of a character class. *)
Inductive regex :=
| Lit (c : ascii)                 (* a literal character *)
| Class (p : ascii -> bool)       (* [\d], [[\d.]] *)
| Plus (p : ascii -> bool)        (* a class followed by [+] *)
| Cat (r1 r2 : regex)             (* concatenation *)
| Group (r : regex).              (* [( ... )] *)

Record rmatch := Match {
  whole : text;            (* [m.group(0)] *)
  group : option text;     (* [m.group(1)], when the pattern has a group *)
  rest : text              (* the text after the match *)
}.

Section Matcher.
Context {R : Type}.

(** Greedy repetition: one more character first, the continuation on what
    is left only when that fails. *)
Fixpoint star (p : ascii -> bool) (s : text) (k : text -> option R) : option R :=
  match s with
  | c :: s' =>
      if p c then
        match star p s' k with
        | Some x => Some x
        | None => k s
        end
      else k s
  | [] => k s
  end.

(** The backtracking matcher, in continuation-passing style: [k] receives
    the text that is left and the capture so far. *)
Fixpoint run (r : regex) (s : text) (cap : option text)
         (k : text -> option text -> option R) : option R :=
  match r with
  | Lit c =>
      match s with
      | c' :: s' => if Ascii.eqb c c' then k s' cap else None
      | [] => None
      end
  | Class p =>
      match s with
      | c' :: s' => if p c' then k s' cap else None
      | [] => None
      end
  | Plus p =>
      match s with
      | c' :: s' => if p c' then star p s' (fun s'' => k s'' cap) else None
      | [] => None
      end
  | Cat r1 r2 => run r1 s cap (fun s1 cap1 => run r2 s1 cap1 k)
  | Group r1 =>
      run r1 s cap
        (fun s1 _ => k s1 (Some (firstn (length s - length s1) s)))
  end.
End Matcher.

(** [pattern.match(s)]: a match that starts at the first character. *)
Definition match_at (r : regex) (s : text) : option rmatch :=
  run r s None
    (fun s' cap => Some (Match (firstn (length s - length s') s) cap s')).

(** [pattern.search(s)]: the first position at which the pattern matches. *)
Fixpoint search (r : regex) (s : text) : option rmatch :=
  match match_at r s with
  | Some m => Some m
  | None =>
      match s with
      | [] => None
      | _ :: s' => search r s'
      end
  end.

(** What [findall] puts in its list: the group when there is one, the whole
    match otherwise. *)
Definition item (m : rmatch) : text :=
  match group m with
  | Some g => g
  | None => whole m
  end.

(** [findall]'s loop: search, record, go on after the match.  No pattern of
    this fragment matches the empty string, so every round consumes a
    character and [length s + 1] rounds are enough ([findall_eq]). *)
Fixpoint findall_loop (n : nat) (r : regex) (s : text) : list text :=
  match n with
  | O => []
  | S n' =>
      match search r s with
      | None => []
      | Some m => item m :: findall_loop n' r (rest m)
      end
  end.

Definition findall (r : regex) (s : text) : list text :=
  findall_loop (S (length s)) r s.

(** A run of literal characters followed by [r]. *)
Fixpoint lits (s : text) (r : regex) : regex :=
  match s with
  | [] => r
  | c :: s' => Cat (Lit c) (lits s' r)
  end.

(** The shape of the three patterns of the script, [pre([p]+)]: the
    literal characters [pre], then a group of one or more characters of the
    class [p]. *)
Definition pattern (pre : text) (p : ascii -> bool) : regex :=
  lits pre (Group (Plus p)).

End Re.

(** ** The builtins [int] and [float] on strings *)

Module Py.

Definition code (c : ascii) : N := N_of_ascii c.

(** [\d], and the digits [int] and [float] read. *)
Definition is_digit (c : ascii) : bool :=
  ((48 <=? code c) && (code c <=? 57))%N.

Definition digit_val (c : ascii) : option N :=
  if is_digit c then Some (code c - 48)%N else None.

(** The white space that [int] and [float] skip around a number: tab to
    carriage return, space, and the two Latin-1 spaces (the separators 28 to
    31, which [str.isspace] accepts, are refused by both). *)
Definition is_space (c : ascii) : bool :=
  (((9 <=? code c) && (code c <=? 13)) || (code c =? 32)
   || (code c =? 133) || (code c =? 160))%N.

Fixpoint lstrip (s : text) : text :=
  match s with
  | c :: s' => if is_space c then lstrip s' else s
  | [] => []
  end.

Fixpoint rstrip (s : text) : text :=
  match s with
  | c :: s' =>
      match rstrip s' with
      | [] => if is_space c then [] else [c]
      | t => c :: t
      end
  | [] => []
  end.

Definition strip (s : text) : text := rstrip (lstrip s).

(** An optional sign: [true] for ['-']. *)
Definition split_sign (s : text) : bool * text :=
  match s with
  | c :: s' =>
      if Ascii.eqb c "+" then (false, s')
      else if Ascii.eqb c "-" then (true, s')
      else (false, s)
  | [] => (false, s)
  end.

(** [digit (["_"] digit)*]: the digits of a whole string of that form. *)
Fixpoint digitpart (s : text) : option (list N) :=
  match s with
  | [] => None
  | c :: s' =>
      match digit_val c with
      | None => None
      | Some d =>
          match s' with
          | [] => Some [d]
          | c' :: s'' =>
              if Ascii.eqb c' "_" then option_map (cons d) (digitpart s'')
              else option_map (cons d) (digitpart s')
          end
      end
  end.

(** The number that a list of decimal digits writes. *)
Definition of_digits (ds : list N) : N :=
  fold_left (fun acc d => 10 * acc + d)%N ds 0%N.

Section Int.
(** [sys.get_int_max_str_digits()]: the interpreter's bound on the number
    of digits [int] converts; [0] is no bound (4300 unless configured, and
    no bound in interpreters that predate the setting). *)
Variable max_str_digits : N.

(** The check of the conversion: above the threshold of 640 digits, a
    string longer than a positive bound is refused. *)
Definition too_long (digits : N) : bool :=
  ((640 <? digits) && (0 <? max_str_digits) && (max_str_digits <? digits))%N.

(** [int(s)] in base ten. *)
Definition int (s : text) : result Z :=
  let (neg, body) := split_sign (strip s) in
  match digitpart body with
  | None => Raise ValueError
  | Some ds =>
      if too_long (N.of_nat (length ds)) then Raise ValueError
      else
        let n := Z.of_N (of_digits ds) in
        Ok (if neg then (- n)%Z else n)
  end.
End Int.

(** *** [float]: binary64 *)

Definition prec : Z := 53.
Definition emax : Z := 1024.

(** [(-1)^neg * m * 10^x], rounded once to nearest, ties to even. *)
Definition of_decimal (neg : bool) (m : N) (x : Z) : spec_float :=
  match m with
  | N0 => S754_zero neg
  | Npos p =>
      SFdiv prec emax
        (S754_finite neg (p * Z.to_pos (10 ^ Z.max x 0)) 0)
        (S754_finite false (Z.to_pos (10 ^ Z.max (- x) 0)) 0)
  end.

Definition lower (c : ascii) : ascii :=
  if ((65 <=? code c) && (code c <=? 90))%N then ascii_of_N (code c + 32) else c.

Definition text_eqb (a b : text) : bool :=
  if list_eq_dec ascii_dec a b then true else false.

(** [inf], [infinity] and [nan], in any case. *)
Definition special (neg : bool) (body : text) : option spec_float :=
  let b := map lower body in
  if text_eqb b (txt "inf") || text_eqb b (txt "infinity")
  then Some (S754_infinity neg)
  else if text_eqb b (txt "nan") then Some S754_nan
  else None.

(** The text before the first character that satisfies [p], and the text
    from that character on. *)
Fixpoint break (p : ascii -> bool) (s : text) : text * text :=
  match s with
  | [] => ([], [])
  | c :: s' =>
      if p c then ([], s)
      else let (a, b) := break p s' in (c :: a, b)
  end.

Definition is_dot (c : ascii) : bool := Ascii.eqb c ".".
Definition is_e (c : ascii) : bool := Ascii.eqb c "e" || Ascii.eqb c "E".

(** [[digitpart] "." digitpart | digitpart ["."]]: the digits and the
    number of them after the point. *)
Definition number (s : text) : option (list N * nat) :=
  match break is_dot s with
  | (ip, []) => option_map (fun ds => (ds, O)) (digitpart ip)
  | (ip, _ :: fp) =>
      match ip, fp with
      | [], [] => None
      | _, [] => option_map (fun ds => (ds, O)) (digitpart ip)
      | [], _ => option_map (fun ds => (ds, length ds)) (digitpart fp)
      | _, _ =>
          match digitpart ip, digitpart fp with
          | Some ds, Some fs => Some (ds ++ fs, length fs)
          | _, _ => None
          end
      end
  end.

(** [("e" | "E") ["+" | "-"] digitpart], or nothing. *)
Definition exponent (s : text) : option Z :=
  match s with
  | [] => Some 0%Z
  | _ :: s' =>
      let (neg, ds) := split_sign s' in
      option_map
        (fun ds => let n := Z.of_N (of_digits ds) in if neg then (- n)%Z else n)
        (digitpart ds)
  end.

(** [float(s)] *)
Definition float (s : text) : result spec_float :=
  let (neg, body) := split_sign (strip s) in
  match special neg body with
  | Some v => Ok v
  | None =>
      let (mant, ex) := break is_e body in
      match number mant, exponent ex with
      | Some (ds, k), Some x => Ok (of_decimal neg (of_digits ds) (x - Z.of_nat k))
      | _, _ => Raise ValueError
      end
  end.

End Py.

(** ** The script *)

Definition digit_or_dot (c : ascii) : bool := Py.is_digit c || Py.is_dot c.

(** [r'size=(\d+)'] *)
Definition size_re : Re.regex :=
  Re.lits (txt "size=") (Re.Group (Re.Plus Py.is_digit)).

(** [r'elapsed: ([\d.]+)'] *)
Definition elapsed_re : Re.regex :=
  Re.lits (txt "elapsed: ") (Re.Group (Re.Plus digit_or_dot)).

(** [r'rate: ([\d.]+)'] *)
Definition rate_re : Re.regex :=
  Re.lits (txt "rate: ") (Re.Group (Re.Plus digit_or_dot)).

Definition pyfloat := spec_float.

(** A file system of plain files: under a path, the text of a file, or no
    file at all. *)
Definition plain (fs : path -> option text) : path -> file :=
  fun q =>
    match fs q with
    | Some data => Content data
    | None => NoOpen FileNotFoundError
    end.

Section Script.
(** The interpreter's setting that [int] consults. *)
Variable max_str_digits : N.

Definition parse_benchmark_log (file_path : path)
  : M (list Z * list pyfloat * list pyfloat) :=
  data <- with_open file_path (fun file => read file) ;;
  (* Extracting size, elapsed, and rate values using regular expressions *)
  let sizes := Re.findall size_re data in
  let elapsed := Re.findall elapsed_re data in
  let rate := Re.findall rate_re data in
  (* Converting extracted values to appropriate types *)
  sizes <- lift (list_map (Py.int max_str_digits) sizes) ;;
  elapsed <- lift (list_map Py.float elapsed) ;;
  rate <- lift (list_map Py.float rate) ;;
  ret (sizes, elapsed, rate).

(** One call on a file system of plain files: the content of every file,
    nothing open. *)
Definition run_on (fs : path -> option text) (file_path : path)
  : result (list Z * list pyfloat * list pyfloat) :=
  fst (parse_benchmark_log file_path (World (plain fs) [])).
End Script.

(** ** What the patterns mean: matches and their collection

    The reading of the documentation of [re], independent of the matcher:
    which words a pattern matches, and what "all non-overlapping matches, in
    the order found, scanning from left to right" is. *)

Module ReSpec.
Import Re.

(** The capture of a later group replaces that of an earlier one. *)
Definition orelse (g cap : option text) : option text :=
  match g with
  | Some _ => g
  | None => cap
  end.

(** [Matches r w g]: the word [w] matches [r], with capture [g]. *)
Inductive Matches : regex -> text -> option text -> Prop :=
| M_Lit c : Matches (Lit c) [c] None
| M_Class p c : p c = true -> Matches (Class p) [c] None
| M_Plus p w : w <> [] -> forallb p w = true -> Matches (Plus p) w None
| M_Cat r1 r2 w1 w2 g1 g2 :
    Matches r1 w1 g1 -> Matches r2 w2 g2 ->
    Matches (Cat r1 r2) (w1 ++ w2) (orelse g2 g1)
| M_Group r w g : Matches r w g -> Matches (Group r) w (Some w).

(** The pattern matches somewhere in [s]. *)
Definition occurs (r : regex) (s : text) : Prop :=
  exists a w b g, s = a ++ w ++ b /\ Matches r w g.

(** What one match contributes to the list. *)
Definition item_of (g : option text) (w : text) : text :=
  match g with
  | Some c => c
  | None => w
  end.

(** [Collected r s l]: [l] lists the matches of [r] in [s] in order of
    appearance.  Each match is the leftmost one in what the previous match
    left of the text, it is the longest one at its position (the
    repetitions are greedy), and the scan goes on after its last
    character. *)
Inductive Collected (r : regex) : text -> list text -> Prop :=
| C_none s : ~ occurs r s -> Collected r s []
| C_match a w b g l :
    Matches r w g ->
    (forall a' w' b' g',
        a ++ w ++ b = a' ++ w' ++ b' -> Matches r w' g' ->
        length a <= length a') ->
    (forall w' b' g',
        w ++ b = w' ++ b' -> Matches r w' g' -> length w' <= length w) ->
    Collected r b l ->
    Collected r (a ++ w ++ b) (item_of g w :: l).

(** The longest prefix of characters of a class, and what follows it. *)
Fixpoint run_of (p : ascii -> bool) (s : text) : text :=
  match s with
  | c :: s' => if p c then c :: run_of p s' else []
  | [] => []
  end.

Fixpoint after_run (p : ascii -> bool) (s : text) : text :=
  match s with
  | c :: s' => if p c then after_run p s' else s
  | [] => []
  end.

End ReSpec.

(** ** Reading the results *)

(** The value of a digit character. *)
Definition dval (c : ascii) : N := (Py.code c - 48)%N.

(** The natural number that a string of digits writes. *)
Definition decimal_value (s : text) : N := Py.of_digits (map dval s).

(** A string of digits and points that [float] reads: at most one point and
    at least one digit. *)
Definition plain_decimal (s : text) : bool :=
  (count_occ ascii_dec s "."%char <=? 1) && existsb Py.is_digit s.

(** [0.0 <= v], which no NaN satisfies. *)
Definition float_nonneg (v : pyfloat) : bool := SFleb (S754_zero false) v.

(** A positive binary64 number by its mantissa and exponent. *)
Definition b64 (m : positive) (e : Z) : pyfloat := S754_finite false m e.

(** [v] is a normal binary64 number within half a unit in the last place
    of [num / den]. *)
Definition nearest_to (num den : Z) (v : pyfloat) : Prop :=
  match v with
  | S754_finite false m e =>
      (Z.pos (digits2_pos m) = Py.prec /\ e <= 0 /\ 0 < den /\
       2 * Z.abs (num * 2 ^ (- e) - den * Z.pos m) <= den)%Z
  | _ => False
  end.

(** The pure part of the function, from the text read to the result. *)
Definition convert (max_str_digits : N) (data : text)
  : result (list Z * list pyfloat * list pyfloat) :=
  match list_map (Py.int max_str_digits) (Re.findall size_re data) with
  | Raise e => Raise e
  | Ok sizes =>
      match list_map Py.float (Re.findall elapsed_re data) with
      | Raise e => Raise e
      | Ok elapsed =>
          match list_map Py.float (Re.findall rate_re data) with
          | Raise e => Raise e
          | Ok rate => Ok (sizes, elapsed, rate)
          end
      end
  end.

(** The text [s] contains the token [tok]. *)
Definition has_token (tok s : text) : Prop := exists a b, s = a ++ tok ++ b.

(** The line feed that ends a line of a file. *)
Definition newline : ascii := ascii_of_nat 10.

(** [n] copies of a piece of text, one after the other. *)
Definition blocks (b : text) (n : nat) : text := concat (repeat b n).

(** A log with [a] size fields, then [b] elapsed fields, then [c] rate
    fields. *)
Definition sample (a b c : nat) : text :=
  blocks (txt "size=1 ") a ++ blocks (txt "elapsed: 1 ") b
  ++ blocks (txt "rate: 1 ") c.

(** The digits of a capture are within what [int] converts: the bound is
    off, or the capture has at most 640 digits, or at most the bound. *)
Definition within_limit (max_str_digits : N) (c : text) : Prop :=
  (max_str_digits = 0 \/ N.of_nat (length c) <= 640
   \/ N.of_nat (length c) <= max_str_digits)%N.

(** ** The files and the values of the examples *)

(** A file system with one file. *)
Definition one_file (p : path) (data : text) : path -> option text :=
  fun q => if Py.text_eqb q p then Some data else None.

Definition log_path : path := txt "column-major1.txt".

(** The two lines of the first example, with and without the line feed
    that ends the last line. *)
Definition two_lines : text :=
  txt "size=10 elapsed: 1.5 rate: 6.7" ++ newline
    :: txt "size=20 elapsed: 3.0 rate: 6.6" ++ [newline].

Definition two_lines_open : text :=
  txt "size=10 elapsed: 1.5 rate: 6.7" ++ newline
    :: txt "size=20 elapsed: 3.0 rate: 6.6".

(** The binary64 numbers that the literals [1.5], [3.0], [6.7], [6.6] and
    [1500.0] denote ([0x1.8p+0], [0x1.8p+1], [0x1.acccccccccccdp+2],
    [0x1.a666666666666p+2], [0x1.77p+10]). *)
Definition f_1_5 : pyfloat := b64 6755399441055744 (-52).
Definition f_3_0 : pyfloat := b64 6755399441055744 (-51).
Definition f_6_7 : pyfloat := b64 7543529375845581 (-50).
Definition f_6_6 : pyfloat := b64 7430939385161318 (-50).
Definition f_1500 : pyfloat := b64 6597069766656000 (-42).

(** A size written with [n] digits, alone in its file. *)
Definition long_size (n : nat) : text := txt "size=" ++ repeat "1"%char n.

(** ** The fields of a log, read without a matcher *)

(** The characters of an exponent: the marker, a sign, digits. *)
Definition exponent_char (c : ascii) : bool :=
  Py.is_e c || Ascii.eqb c "+" || Ascii.eqb c "-" || Py.is_digit c.

(** The text after a value does not go on with a character of the class. *)
Definition stops (p : ascii -> bool) (b : text) : Prop :=
  b = [] \/ exists c t, b = c :: t /\ p c = false.

(** What follows [pre] in [s], when [s] starts with [pre]. *)
Fixpoint after_prefix (pre s : text) : option text :=
  match pre with
  | [] => Some s
  | c :: pre' =>
      match s with
      | c' :: s' => if Ascii.eqb c c' then after_prefix pre' s' else None
      | [] => None
      end
  end.

(** The values of a field in [s]: at every position where the literal [pre]
    stands before a character of the class [p], the longest run of
    characters of the class after it. *)
Fixpoint tokens (pre : text) (p : ascii -> bool) (s : text) : list text :=
  match s with
  | [] => []
  | _ :: s' =>
      match after_prefix pre s with
      | Some u =>
          match ReSpec.run_of p u with
          | [] => tokens pre p s'
          | d => d :: tokens pre p s'
          end
      | None => tokens pre p s'
      end
  end.

(** No end of [pre], short of the whole, is also a beginning of it: two
    occurrences of the literal cannot overlap. *)
Definition border_free (pre : text) : bool :=
  forallb
    (fun k => negb (Py.text_eqb (skipn k pre) (firstn (length pre - k) pre)))
    (seq 1 (length pre - 1)).

(** The results of two texts, joined as the result of one. *)
Definition result_app (r1 r2 : result (list Z * list pyfloat * list pyfloat))
  : result (list Z * list pyfloat * list pyfloat) :=
  match r1, r2 with
  | Ok (s1, e1, t1), Ok (s2, e2, t2) => Ok (s1 ++ s2, e1 ++ e2, t1 ++ t2)
  | Raise e, _ => Raise e
  | Ok _, Raise e => Raise e
  end.

(** One record of a log as the benchmark writes it, and its line. *)
Record entry := Entry {
  size_text : text;
  elapsed_text : text;
  rate_text : text
}.

Definition entry_line (x : entry) : text :=
  txt "size=" ++ size_text x ++ txt " elapsed: " ++ elapsed_text x
  ++ txt " rate: " ++ rate_text x ++ [newline].

Definition log_of (xs : list entry) : text := concat (map entry_line xs).

(** The record is written with numbers that the conversions read. *)
Definition well_formed (max_str_digits : N) (x : entry) : Prop :=
  size_text x <> [] /\ forallb Py.is_digit (size_text x) = true
  /\ within_limit max_str_digits (size_text x)
  /\ forallb digit_or_dot (elapsed_text x) = true
  /\ plain_decimal (elapsed_text x) = true
  /\ forallb digit_or_dot (rate_text x) = true
  /\ plain_decimal (rate_text x) = true.

(** The float that a piece of text is read as. *)
Definition float_value (c : text) : pyfloat :=
  match Py.float c with
  | Ok v => v
  | Raise _ => S754_nan
  end.

(** A number in decimal notation. *)
Fixpoint uint_text (d : Decimal.uint) : text :=
  match d with
  | Decimal.Nil => []
  | Decimal.D0 d' => "0"%char :: uint_text d'
  | Decimal.D1 d' => "1"%char :: uint_text d'
  | Decimal.D2 d' => "2"%char :: uint_text d'
  | Decimal.D3 d' => "3"%char :: uint_text d'
  | Decimal.D4 d' => "4"%char :: uint_text d'
  | Decimal.D5 d' => "5"%char :: uint_text d'
  | Decimal.D6 d' => "6"%char :: uint_text d'
  | Decimal.D7 d' => "7"%char :: uint_text d'
  | Decimal.D8 d' => "8"%char :: uint_text d'
  | Decimal.D9 d' => "9"%char :: uint_text d'
  end.

Definition decimal_text (n : N) : text := uint_text (N.to_uint n).

(** * Proofs *)

(** ** The matcher against the meaning of the patterns *)

Module ReFacts.
Import Re ReSpec.

Lemma firstn_prefix (w s : text) :
  firstn (length (w ++ s) - length s) (w ++ s) = w.
Proof.
  rewrite length_app, Nat.add_sub.
  rewrite firstn_app, Nat.sub_diag, firstn_all. simpl. apply app_nil_r.
Qed.

Lemma firstn_prefix_eq (s w t : text) :
  s = w ++ t -> firstn (length s - length t) s = w.
Proof. intros ->. apply firstn_prefix. Qed.

Lemma Matches_nonempty r w g : Matches r w g -> w <> [].
Proof.
  induction 1; try discriminate; auto.
  destruct w1; [congruence | discriminate].
Qed.

Lemma Matches_length r w g : Matches r w g -> 0 < length w.
Proof.
  intros H. apply Matches_nonempty in H. destruct w; [congruence | simpl; lia].
Qed.

Section Star.
Context {R : Type}.
Variable p : ascii -> bool.

Lemma star_sound (k : text -> option R) s x :
  star p s k = Some x ->
  exists w s', s = w ++ s' /\ forallb p w = true /\ k s' = Some x.
Proof.
  induction s as [|c s IH]; simpl; intros H.
  - exists [], []. auto.
  - destruct (p c) eqn:Hc.
    + destruct (star p s k) eqn:Hs.
      * inversion H; subst. destruct (IH eq_refl) as (w & s' & -> & Hw & Hk).
        exists (c :: w), s'. simpl. rewrite Hc, Hw. auto.
      * exists [], (c :: s). auto.
    + exists [], (c :: s). auto.
Qed.

Lemma star_complete (k : text -> option R) w s' :
  forallb p w = true -> k s' <> None -> star p (w ++ s') k <> None.
Proof.
  induction w as [|c w IH]; simpl; intros Hw Hk.
  - destruct s' as [|c s']; simpl; auto.
    destruct (p c); auto. destruct (star p s' k); [discriminate | auto].
  - apply andb_true_iff in Hw as [Hc Hw]. rewrite Hc.
    specialize (IH Hw Hk). destruct (star p (w ++ s') k); [discriminate | congruence].
Qed.

(** When the continuation accepts whatever is left, the repetition takes
    the whole run. *)
Lemma star_total (k : text -> option R) s :
  (forall t, k t <> None) -> star p s k = k (after_run p s).
Proof.
  intros Hk. induction s as [|c s IH]; simpl; auto.
  destruct (p c); auto. rewrite IH.
  destruct (k (after_run p s)) eqn:E; auto. now apply Hk in E.
Qed.
End Star.

Lemma run_sound {R : Type} r : forall s cap (k : text -> option text -> option R) x,
  run r s cap k = Some x ->
  exists w s' g, s = w ++ s' /\ Matches r w g /\ k s' (orelse g cap) = Some x.
Proof.
  induction r as [c | p | p | r1 IH1 r2 IH2 | r1 IH1]; simpl; intros s cap k x H.
  - destruct s as [|c' s]; [discriminate|].
    destruct (Ascii.eqb c c') eqn:E; [|discriminate].
    apply Ascii.eqb_eq in E; subst.
    exists [c'], s, None. repeat split; auto. constructor.
  - destruct s as [|c' s]; [discriminate|].
    destruct (p c') eqn:E; [|discriminate].
    exists [c'], s, None. repeat split; auto. now constructor.
  - destruct s as [|c' s]; [discriminate|].
    destruct (p c') eqn:E; [|discriminate].
    apply star_sound in H as (w & s' & -> & Hw & Hk).
    exists (c' :: w), s', None. repeat split; auto.
    constructor; [discriminate | simpl; now rewrite E, Hw].
  - apply IH1 in H as (w1 & s1 & g1 & -> & M1 & H).
    apply IH2 in H as (w2 & s2 & g2 & -> & M2 & H).
    exists (w1 ++ w2), s2, (orelse g2 g1). rewrite <- app_assoc.
    repeat split; auto.
    + now constructor.
    + destruct g2, g1; simpl in *; auto.
  - apply IH1 in H as (w & s' & g & -> & M & H).
    rewrite firstn_prefix in H.
    exists w, s', (Some w). repeat split; auto. econstructor; eauto.
Qed.

Lemma run_complete {R : Type} r w g : Matches r w g ->
  forall s' cap (k : text -> option text -> option R),
    k s' (orelse g cap) <> None -> run r (w ++ s') cap k <> None.
Proof.
  induction 1 as [c | p c Hc | p w Hne Hw | r1 r2 w1 w2 g1 g2 M1 IH1 M2 IH2 | r w g M IH];
    simpl; intros s' cap k Hk.
  - now rewrite Ascii.eqb_refl.
  - now rewrite Hc.
  - destruct w as [|c w]; [congruence|]. simpl in *.
    apply andb_true_iff in Hw as [Hc Hw]. rewrite Hc.
    now apply star_complete.
  - rewrite <- app_assoc. apply IH1. apply IH2.
    destruct g2, g1; simpl in *; auto.
  - apply IH. now rewrite firstn_prefix.
Qed.

Lemma match_at_sound r s m :
  match_at r s = Some m ->
  s = whole m ++ rest m /\ Matches r (whole m) (group m).
Proof.
  unfold match_at. intros H.
  apply run_sound in H as (w & s' & g & -> & M & H).
  rewrite firstn_prefix in H. inversion H; subst; simpl.
  split; auto. now destruct g.
Qed.

Lemma match_at_complete r w g b : Matches r w g -> match_at r (w ++ b) <> None.
Proof.
  intros M. unfold match_at. eapply run_complete; eauto. discriminate.
Qed.

Lemma match_at_shorter r s m : match_at r s = Some m -> length (rest m) < length s.
Proof.
  intros H. apply match_at_sound in H as [E M].
  apply Matches_length in M. rewrite E, length_app. lia.
Qed.

Lemma search_none r s : search r s = None <-> ~ occurs r s.
Proof.
  split.
  - induction s as [|c s IH]; simpl; intros H (a & w & b & g & E & M).
    + destruct a; [|discriminate]. destruct w; [|discriminate].
      now apply Matches_nonempty in M.
    + destruct (match_at r (c :: s)) eqn:E1; [discriminate|].
      destruct a as [|c' a]; simpl in E.
      * rewrite E in E1. now apply (match_at_complete _ _ _ b) in M.
      * inversion E; subst. apply (IH H). now exists a, w, b, g.
  - induction s as [|c s IH]; simpl; intros H.
    + destruct (match_at r []) eqn:E1; auto.
      apply match_at_sound in E1 as [E M]. exfalso. apply H.
      exists [], (whole r0), (rest r0), (group r0). auto.
    + destruct (match_at r (c :: s)) eqn:E1.
      * apply match_at_sound in E1 as [E M]. exfalso. apply H.
        exists [], (whole r0), (rest r0), (group r0). auto.
      * apply IH. intros (a & w & b & g & E & M). apply H.
        exists (c :: a), w, b, g. subst. auto.
Qed.

(** The match that [search] finds is a match at its position, and no match
    starts before it. *)
Lemma search_some r s m :
  search r s = Some m ->
  exists a, s = a ++ whole m ++ rest m /\
            match_at r (whole m ++ rest m) = Some m /\
            forall a' w' b' g',
              s = a' ++ w' ++ b' -> Matches r w' g' -> length a <= length a'.
Proof.
  revert m. induction s as [|c s IH]; simpl; intros m H.
  - destruct (match_at r []) eqn:E1; [|discriminate]. inversion H; subst.
    pose proof (match_at_sound _ _ _ E1) as [E M].
    exists []. rewrite <- E. repeat split; auto. simpl. lia.
  - destruct (match_at r (c :: s)) eqn:E1.
    + inversion H; subst. pose proof (match_at_sound _ _ _ E1) as [E M].
      exists []. simpl. rewrite <- E. repeat split; auto. simpl. lia.
    + destruct (IH _ H) as (a & E & Hm & Hleft).
      exists (c :: a). simpl. rewrite <- E. repeat split; auto.
      intros a' w' b' g' E' M'. destruct a' as [|c' a']; simpl in *.
      * rewrite E' in E1. now apply (match_at_complete _ _ _ b') in M'.
      * inversion E'; subst c'. apply le_n_S. eapply Hleft; eauto.
Qed.

Lemma search_shorter r s m : search r s = Some m -> length (rest m) < length s.
Proof.
  intros H. apply search_some in H as (a & E & Hm & _).
  apply match_at_shorter in Hm. rewrite E.
  rewrite !length_app in *. lia.
Qed.

Lemma findall_loop_enough r : forall n n' s,
  length s < n -> length s < n' -> findall_loop n r s = findall_loop n' r s.
Proof.
  induction n as [|n IH]; intros n' s Hn Hn'; [lia|].
  destruct n' as [|n']; [lia|]. simpl.
  destruct (search r s) eqn:E; auto.
  apply search_shorter in E. f_equal. apply IH; lia.
Qed.

(** The loop of [findall], free of its bound on the rounds. *)
Lemma findall_eq r s :
  findall r s =
  match search r s with
  | None => []
  | Some m => item m :: findall r (rest m)
  end.
Proof.
  unfold findall at 1. simpl. destruct (search r s) eqn:E; auto.
  f_equal. apply search_shorter in E. apply findall_loop_enough; lia.
Qed.

End ReFacts.

(** ** The patterns of the script: literal characters, then one group of a
    repeated class *)

Module PatternFacts.
Import Re ReSpec ReFacts.

Lemma app_same_length {A : Type} (a a' x y : list A) :
  length a = length a' -> a ++ x = a' ++ y -> a = a' /\ x = y.
Proof.
  revert a'. induction a as [|c a IH]; intros [|c' a'] Hl E; simpl in *;
    try discriminate; auto.
  inversion E; subst. destruct (IH a') as [-> ->]; auto.
Qed.

Lemma orelse_None g : orelse g None = g.
Proof. now destruct g. Qed.

Lemma run_split p (u : text) : u = run_of p u ++ after_run p u.
Proof.
  induction u as [|c u IH]; simpl; auto.
  destruct (p c); simpl; congruence.
Qed.

Lemma run_of_all p (u : text) : forallb p (run_of p u) = true.
Proof.
  induction u as [|c u IH]; simpl; auto.
  destruct (p c) eqn:E; simpl; auto. now rewrite E.
Qed.

Lemma after_run_stops p (u : text) :
  after_run p u = [] \/ exists c t, after_run p u = c :: t /\ p c = false.
Proof.
  induction u as [|c u IH]; simpl; auto.
  destruct (p c) eqn:E; auto. right. now exists c, u.
Qed.

Lemma run_of_longest p : forall (d b u : text),
  d ++ b = u -> forallb p d = true -> length d <= length (run_of p u).
Proof.
  induction d as [|c d IH]; simpl; intros b u E Hd; [lia|].
  apply andb_true_iff in Hd as [Hc Hd]. subst u. simpl. rewrite Hc. simpl.
  apply le_n_S. now apply (IH b).
Qed.

Lemma run_of_app p (d b : text) :
  forallb p d = true ->
  (b = [] \/ exists c t, b = c :: t /\ p c = false) ->
  run_of p (d ++ b) = d /\ after_run p (d ++ b) = b.
Proof.
  intros Hd Hb. induction d as [|c d IH]; simpl in *.
  - destruct Hb as [-> | (c & t & -> & Hc)]; simpl; auto. now rewrite Hc.
  - apply andb_true_iff in Hd as [Hc Hd]. rewrite Hc.
    destruct (IH Hd) as [-> ->]. auto.
Qed.

Section Shape.
Variable pre : text.
Variable p : ascii -> bool.

Local Abbreviation pat := (pattern pre p).

Lemma run_lits {R : Type} (r : regex) : forall l u cap (k : text -> option text -> option R),
  run (lits l r) (l ++ u) cap k = run r u cap k.
Proof.
  induction l as [|c l IH]; simpl; intros; auto.
  now rewrite Ascii.eqb_refl.
Qed.

Lemma Matches_lits r : forall l w g,
  Matches (lits l r) w g <-> exists d, w = l ++ d /\ Matches r d g.
Proof.
  induction l as [|c l IH]; simpl; intros w g.
  - split; [intros H; now exists w | intros (d & -> & H); auto].
  - split.
    + intros H. inversion H as [| | |r1 r2 w1 w2 g1 g2 M1 M2|]; subst.
      inversion M1; subst. apply IH in M2 as (d & -> & M2).
      exists d. rewrite orelse_None. auto.
    + intros (d & -> & H).
      rewrite <- (orelse_None g).
      apply (M_Cat (Lit c) (lits l r) [c] (l ++ d) None g); [constructor|].
      apply IH. now exists d.
Qed.

(** The words that the pattern matches. *)
Lemma Matches_pat w g :
  Matches pat w g <->
  exists d, w = pre ++ d /\ d <> [] /\ forallb p d = true /\ g = Some d.
Proof.
  unfold pattern. rewrite Matches_lits. split.
  - intros (d & -> & H). inversion H as [| | | |r w' g' M]; subst.
    inversion M; subst. now exists d.
  - intros (d & -> & Hne & Hd & ->). exists d. split; auto.
    apply (M_Group (Plus p) d None). now constructor.
Qed.

(** What the matcher returns at a position where the pattern starts. *)
Lemma match_at_pat c u :
  p c = true ->
  match_at pat (pre ++ c :: u) =
  Some (Match (pre ++ c :: run_of p u) (Some (c :: run_of p u)) (after_run p u)).
Proof.
  intros Hc. unfold match_at, pattern. rewrite run_lits. cbn [run]. rewrite Hc.
  rewrite star_total by discriminate.
  assert (E : pre ++ c :: u = (pre ++ c :: run_of p u) ++ after_run p u).
  { rewrite <- app_assoc. simpl. now rewrite <- run_split. }
  assert (E' : c :: u = (c :: run_of p u) ++ after_run p u).
  { simpl. now rewrite <- run_split. }
  now rewrite (firstn_prefix_eq _ _ _ E), (firstn_prefix_eq _ _ _ E').
Qed.

Lemma match_at_pat_inv s m :
  match_at pat s = Some m ->
  exists c u, p c = true /\ s = pre ++ c :: u /\
    m = Match (pre ++ c :: run_of p u) (Some (c :: run_of p u)) (after_run p u).
Proof.
  intros H. pose proof (match_at_sound _ _ _ H) as [E M].
  apply Matches_pat in M as (d & Ew & Hne & Hd & Hg).
  destruct d as [|c d]; [congruence|]. simpl in Hd.
  apply andb_true_iff in Hd as [Hc Hd].
  exists c, (d ++ rest m). split; auto.
  assert (Es : s = pre ++ c :: d ++ rest m).
  { rewrite E, Ew, <- app_assoc. reflexivity. }
  split; auto. rewrite Es, (match_at_pat _ _ Hc) in H.
  injection H as H. now symmetry.
Qed.

(** The match found at a position is the longest one there. *)
Lemma match_at_longest s m w' b' g' :
  match_at pat s = Some m -> s = w' ++ b' -> Matches pat w' g' ->
  length w' <= length (whole m).
Proof.
  intros H E M. apply match_at_pat_inv in H as (c & u & Hc & Es & ->). simpl.
  apply Matches_pat in M as (d & -> & Hne & Hd & _).
  rewrite Es, <- app_assoc in E. apply app_inv_head in E.
  rewrite !length_app.
  pose proof (run_of_longest p d b' (c :: u) (eq_sym E) Hd) as L.
  simpl in L. rewrite Hc in L. simpl in *. lia.
Qed.

(** The list that [findall] returns is the collection of the matches. *)
Lemma findall_collected : forall s, Collected pat s (findall pat s).
Proof.
  intros s. remember (length s) as n eqn:Hn.
  revert s Hn. induction n as [n IH] using lt_wf_ind. intros s Hn.
  rewrite findall_eq. destruct (search pat s) as [m|] eqn:E.
  - pose proof (search_shorter _ _ _ E) as Hlt.
    destruct (search_some _ _ _ E) as (a & Es & Hm & Hleft).
    pose proof (match_at_sound _ _ _ Hm) as [_ M].
    assert (Hi : item m = item_of (group m) (whole m)) by reflexivity.
    rewrite Hi. rewrite Es at 1. apply C_match; auto.
    + intros a' w' b' g' E' M'. apply (Hleft a' w' b' g'); auto.
      now rewrite Es.
    + intros w' b' g' E' M'. eapply match_at_longest; eauto.
    + apply (IH (length (rest m))); auto. lia.
  - apply C_none. now apply search_none.
Qed.

(** The collection is unique: it is what [findall] returns. *)
Lemma Collected_findall s l : Collected pat s l -> l = findall pat s.
Proof.
  induction 1 as [s Hno | a w b g l M Hleft Hlong HC IH].
  - rewrite findall_eq. apply search_none in Hno. now rewrite Hno.
  - rewrite findall_eq. destruct (search pat (a ++ w ++ b)) as [m|] eqn:E.
    + destruct (search_some _ _ _ E) as (a0 & Es & Hm & Hleft0).
      pose proof (match_at_sound _ _ _ Hm) as [_ M0].
      assert (La : length a = length a0).
      { apply Nat.le_antisymm.
        - eapply Hleft; eauto.
        - eapply Hleft0; eauto. }
      destruct (app_same_length _ _ _ _ La Es) as [<- Ew].
      assert (Lw : length w = length (whole m)).
      { apply Nat.le_antisymm.
        - eapply match_at_longest; eauto.
        - eapply Hlong; eauto. }
      destruct (app_same_length _ _ _ _ Lw Ew) as [Ew' Eb].
      apply Matches_pat in M as (d & Ed & _ & _ & ->).
      apply Matches_pat in M0 as (d0 & Ed0 & _ & _ & Eg0).
      assert (d = d0).
      { rewrite Ew', Ed0 in Ed. now apply app_inv_head in Ed. }
      subst d0. unfold item. rewrite Eg0. simpl. f_equal.
      rewrite <- Eb. exact IH.
    + apply search_none in E. exfalso. apply E. now exists a, w, b, g.
Qed.

Lemma Collected_iff s l : Collected pat s l <-> l = findall pat s.
Proof.
  split; [apply Collected_findall | intros ->; apply findall_collected].
Qed.

(** Every capture is a non-empty run of the class. *)
Lemma findall_captures s :
  Forall (fun c => c <> [] /\ forallb p c = true) (findall pat s).
Proof.
  generalize (findall_collected s). generalize (findall pat s).
  intros l H. induction H as [|a w b g l M _ _ _ IH]; constructor; auto.
  apply Matches_pat in M as (d & _ & Hne & Hd & ->). now simpl.
Qed.

(** No occurrence of the literal part, no match. *)
Lemma findall_no_token s :
  ~ (exists a b, s = a ++ pre ++ b) -> findall pat s = [].
Proof.
  intros H. rewrite findall_eq.
  destruct (search pat s) as [m|] eqn:E; auto.
  destruct (search_some _ _ _ E) as (a & Es & Hm & _).
  apply match_at_sound in Hm as [_ M].
  apply Matches_pat in M as (d & Ew & _). exfalso. apply H.
  exists a, (d ++ rest m). now rewrite Es, Ew, <- app_assoc.
Qed.

(** An occurrence of the literal part before a character of the class, at
    least one match. *)
Lemma findall_token s a c b :
  s = a ++ pre ++ c :: b -> p c = true -> findall pat s <> [].
Proof.
  intros Es Hc. rewrite findall_eq.
  destruct (search pat s) as [m|] eqn:E; [discriminate|].
  apply search_none in E. exfalso. apply E.
  exists a, (pre ++ [c]), b, (Some [c]). split.
  - rewrite Es, <- app_assoc. reflexivity.
  - apply Matches_pat. exists [c]. repeat split; auto; [discriminate|].
    simpl. now rewrite Hc.
Qed.

End Shape.

End PatternFacts.

(** ** The conversions on what the patterns capture *)

Module PyFacts.
Import Py.

Lemma digit_not_space c : is_digit c = true -> is_space c = false.
Proof.
  unfold is_digit, is_space. intros H.
  apply andb_true_iff in H as [H1 H2]. apply N.leb_le in H1, H2.
  assert (E1 : (code c <=? 13)%N = false) by (apply N.leb_gt; lia).
  assert (E2 : (code c =? 32)%N = false) by (apply N.eqb_neq; lia).
  assert (E3 : (code c =? 133)%N = false) by (apply N.eqb_neq; lia).
  assert (E4 : (code c =? 160)%N = false) by (apply N.eqb_neq; lia).
  rewrite E1, E2, E3, E4. now rewrite andb_false_r.
Qed.

Lemma dot_is c : is_dot c = true -> c = "."%char.
Proof. unfold is_dot. apply Ascii.eqb_eq. Qed.

Lemma class_not_space c : digit_or_dot c = true -> is_space c = false.
Proof.
  unfold digit_or_dot. intros H. apply orb_true_iff in H as [H | H].
  - now apply digit_not_space.
  - apply dot_is in H. now subst.
Qed.

Lemma digit_not c c' : is_digit c = true -> is_digit c' = false -> Ascii.eqb c c' = false.
Proof.
  intros H H'. apply Ascii.eqb_neq. intros ->. congruence.
Qed.

Lemma class_not c c' :
  digit_or_dot c = true -> digit_or_dot c' = false -> Ascii.eqb c c' = false.
Proof.
  intros H H'. apply Ascii.eqb_neq. intros ->. congruence.
Qed.

Lemma digit_class c : is_digit c = true -> digit_or_dot c = true.
Proof. unfold digit_or_dot. now intros ->. Qed.

Lemma class_cases c :
  digit_or_dot c = true ->
  (is_digit c = true /\ is_dot c = false) \/ (is_digit c = false /\ c = "."%char).
Proof.
  unfold digit_or_dot. intros H. destruct (is_digit c) eqn:D.
  - left. split; auto. unfold is_dot. apply Ascii.eqb_neq. intros ->. discriminate.
  - right. split; auto. now apply dot_is.
Qed.

(** *** Nothing to strip *)

Lemma lstrip_head s :
  match s with c :: _ => is_space c = false | [] => True end -> lstrip s = s.
Proof. destruct s as [|c s]; simpl; auto. now intros ->. Qed.

Lemma rstrip_no_space s :
  Forall (fun c => is_space c = false) s -> rstrip s = s.
Proof.
  induction 1 as [|c s Hc _ IH]; simpl; auto.
  rewrite IH, Hc. now destruct s.
Qed.

Lemma strip_no_space s :
  Forall (fun c => is_space c = false) s -> strip s = s.
Proof.
  intros H. unfold strip. rewrite (lstrip_head s).
  - now apply rstrip_no_space.
  - destruct s; auto. now inversion H.
Qed.

Lemma strip_class p s :
  (forall c, p c = true -> is_space c = false) ->
  forallb p s = true -> strip s = s.
Proof.
  intros Hp H. apply strip_no_space. apply Forall_forall. intros c Hc.
  apply Hp. rewrite forallb_forall in H. now apply H.
Qed.

Lemma split_sign_class s :
  forallb digit_or_dot s = true -> split_sign s = (false, s).
Proof.
  destruct s as [|c s]; simpl; auto. intros H.
  apply andb_true_iff in H as [Hc _].
  rewrite !(class_not c) by (auto; reflexivity). reflexivity.
Qed.

(** *** The digits *)

Lemma digitpart_digits s :
  s <> [] -> forallb is_digit s = true -> digitpart s = Some (map dval s).
Proof.
  induction s as [|c s IH]; [congruence|]. intros _ H. simpl in H.
  apply andb_true_iff in H as [Hc Hs]. cbn [digitpart map].
  unfold digit_val. rewrite Hc. destruct s as [|c' s]; auto.
  pose proof Hs as Hs'. simpl in Hs'. apply andb_true_iff in Hs' as [Hc' _].
  rewrite (digit_not c') by (auto; reflexivity).
  rewrite IH by (auto; discriminate). reflexivity.
Qed.

Lemma digitpart_dot s :
  forallb digit_or_dot s = true -> forallb is_digit s = false -> digitpart s = None.
Proof.
  induction s as [|c s IH]; [discriminate|]. intros H H'. simpl in H, H'.
  apply andb_true_iff in H as [Hc Hs]. cbn [digitpart]. unfold digit_val.
  destruct (is_digit c) eqn:D; auto. simpl in H'.
  destruct s as [|c' s]; [discriminate|].
  pose proof Hs as Hs'. simpl in Hs'. apply andb_true_iff in Hs' as [Hc' _].
  rewrite (class_not c') by (auto; reflexivity).
  now rewrite IH.
Qed.

(** *** [int] on a capture of [\d+] *)

Lemma int_digits L s :
  s <> [] -> forallb is_digit s = true ->
  int L s =
  if too_long L (N.of_nat (length s)) then Raise ValueError
  else Ok (Z.of_N (decimal_value s)).
Proof.
  intros Hne H. unfold int.
  rewrite (strip_class is_digit) by (auto using digit_not_space).
  rewrite split_sign_class.
  2:{ rewrite forallb_forall in *. auto using digit_class. }
  rewrite digitpart_digits by auto. now rewrite length_map.
Qed.

Lemma int_short L s :
  s <> [] -> forallb is_digit s = true ->
  (L = 0 \/ N.of_nat (length s) <= 640 \/ N.of_nat (length s) <= L)%N ->
  int L s = Ok (Z.of_N (decimal_value s)).
Proof.
  intros Hne H Hl. rewrite int_digits by auto.
  assert (E : too_long L (N.of_nat (length s)) = false); [|now rewrite E].
  unfold too_long. rewrite !andb_false_iff, !N.ltb_ge. lia.
Qed.

(** *** Rounding keeps the sign *)

Lemma shr_1_nonneg mrs : (0 <= shr_m mrs -> 0 <= shr_m (shr_1 mrs))%Z.
Proof.
  destruct mrs as [m r s]. destruct m as [|[q|q|]|[q|q|]]; simpl; lia.
Qed.

Lemma iter_shr_1_nonneg n : forall mrs,
  (0 <= shr_m mrs -> 0 <= shr_m (iter_pos shr_1 n mrs))%Z.
Proof.
  induction n as [n IH|n IH|]; simpl; intros mrs H;
    auto using shr_1_nonneg.
Qed.

Lemma shr_nonneg mrs e n : (0 <= shr_m mrs -> 0 <= shr_m (fst (shr mrs e n)))%Z.
Proof.
  destruct n; simpl; auto using iter_shr_1_nonneg.
Qed.

Lemma shr_fexp_nonneg m e l :
  (0 <= m -> 0 <= shr_m (fst (shr_fexp prec emax m e l)))%Z.
Proof.
  intros H. unfold shr_fexp. apply shr_nonneg. now destruct l as [|[]].
Qed.

Lemma round_nearest_even_nonneg m l : (0 <= m -> 0 <= round_nearest_even m l)%Z.
Proof.
  intros H. destruct l as [|[]]; simpl; try lia. destruct (Z.even m); lia.
Qed.

Lemma binary_round_aux_nonneg m e l :
  (0 <= m)%Z -> float_nonneg (binary_round_aux prec emax false m e l) = true.
Proof.
  intros H. unfold binary_round_aux.
  pose proof (shr_fexp_nonneg m e l H) as H1.
  destruct (shr_fexp prec emax m e l) as [mrs' e']. simpl in H1.
  pose proof (shr_fexp_nonneg _ e' loc_Exact
                (round_nearest_even_nonneg _ (loc_of_shr_record mrs') H1)) as H2.
  destruct (shr_fexp prec emax _ e' loc_Exact) as [mrs'' e'']. simpl in H2.
  destruct (shr_m mrs'') as [|q|q]; [reflexivity | | lia].
  now destruct (Z.leb e'' (emax - prec)).
Qed.

Lemma SFdiv_nonneg m1 m2 :
  float_nonneg (SFdiv prec emax (S754_finite false m1 0) (S754_finite false m2 0)) = true.
Proof.
  unfold SFdiv, SFdiv_core_binary.
  set (s := (0 - 0 - _)%Z).
  set (m' := match s with Z.pos _ => Z.shiftl (Z.pos m1) s | Z0 => Z.pos m1 | Z.neg _ => 0%Z end).
  assert (Hm : (0 <= m')%Z).
  { unfold m'. destruct s; try lia. apply Z.shiftl_nonneg. lia. }
  pose proof (Z.div_pos m' (Z.pos m2) Hm ltac:(lia)) as Hq.
  unfold Z.div in Hq. destruct (Z.div_eucl m' (Z.pos m2)) as [q r].
  now apply binary_round_aux_nonneg.
Qed.

Lemma of_decimal_nonneg m x : float_nonneg (of_decimal false m x) = true.
Proof.
  unfold of_decimal. destruct m; [reflexivity | apply SFdiv_nonneg].
Qed.

(** *** [float] on a capture of [[\d.]+] *)

Lemma lower_class c : digit_or_dot c = true -> lower c = c.
Proof.
  intros H. unfold lower. destruct (class_cases c H) as [[D _] | [_ ->]]; auto.
  unfold is_digit in D. apply andb_true_iff in D as [_ D]. apply N.leb_le in D.
  assert (E : (65 <=? code c)%N = false) by (apply N.leb_gt; lia).
  now rewrite E.
Qed.

Lemma map_lower_class s : forallb digit_or_dot s = true -> map lower s = s.
Proof.
  induction s as [|c s IH]; simpl; auto. intros H.
  apply andb_true_iff in H as [Hc Hs]. now rewrite lower_class, IH.
Qed.

Lemma text_eqb_class s t :
  forallb digit_or_dot s = true -> forallb digit_or_dot t = false ->
  text_eqb s t = false.
Proof.
  intros Hs Ht. unfold text_eqb. destruct (list_eq_dec ascii_dec s t); auto.
  congruence.
Qed.

Lemma special_class s : forallb digit_or_dot s = true -> special false s = None.
Proof.
  intros H. unfold special. rewrite map_lower_class by auto.
  now rewrite !(text_eqb_class s) by (auto; reflexivity).
Qed.

Lemma break_none p s :
  (forall c, In c s -> p c = false) -> break p s = (s, []).
Proof.
  induction s as [|c s IH]; simpl; auto. intros H.
  rewrite (H c) by auto. now rewrite IH by auto.
Qed.

Lemma break_e_class s : forallb digit_or_dot s = true -> break is_e s = (s, []).
Proof.
  intros H. apply break_none. intros c Hc. rewrite forallb_forall in H.
  unfold is_e. now rewrite !(class_not c) by (auto; reflexivity).
Qed.

Lemma float_class s :
  forallb digit_or_dot s = true ->
  float s =
  match number s with
  | Some (ds, k) => Ok (of_decimal false (of_digits ds) (0 - Z.of_nat k))
  | None => Raise ValueError
  end.
Proof.
  intros H. unfold float.
  rewrite (strip_class digit_or_dot) by (auto using class_not_space).
  rewrite split_sign_class, special_class, break_e_class by auto.
  simpl. now destruct (number s) as [[ds k]|].
Qed.

(** *** Which captures [float] reads *)

Lemma digits_no_dot s :
  forallb is_digit s = true -> count_occ ascii_dec s "."%char = 0.
Proof.
  induction s as [|c s IH]; simpl; auto. intros H.
  apply andb_true_iff in H as [Hc Hs].
  destruct (ascii_dec c "."); [subst; discriminate | auto].
Qed.

Lemma class_dot_count s :
  forallb digit_or_dot s = true -> forallb is_digit s = false ->
  1 <= count_occ ascii_dec s "."%char.
Proof.
  induction s as [|c s IH]; simpl; [discriminate|]. intros H H'.
  apply andb_true_iff in H as [Hc Hs].
  destruct (class_cases c Hc) as [[D _] | [D ->]].
  - rewrite D in H'. simpl in H'. specialize (IH Hs H').
    destruct (ascii_dec c "."); lia.
  - simpl. lia.
Qed.

Lemma digits_exist s :
  s <> [] -> forallb is_digit s = true -> existsb is_digit s = true.
Proof.
  destruct s as [|c s]; [congruence|]. simpl. intros _ H.
  apply andb_true_iff in H as [-> _]. reflexivity.
Qed.

Lemma break_dot_class s :
  forallb digit_or_dot s = true ->
  exists ip r, break is_dot s = (ip, r) /\ s = ip ++ r /\
    forallb is_digit ip = true /\
    (r = [] \/ exists fp, r = "."%char :: fp /\ forallb digit_or_dot fp = true).
Proof.
  induction s as [|c s IH]; simpl; intros H.
  - exists [], []. auto.
  - apply andb_true_iff in H as [Hc Hs].
    destruct (class_cases c Hc) as [[D E] | [D ->]].
    + rewrite E. destruct (IH Hs) as (ip & r & -> & -> & Hip & Hr).
      exists (c :: ip), r. simpl. rewrite D, Hip. auto.
    + exists [], ("."%char :: s). simpl. repeat split; auto. right. now exists s.
Qed.

Lemma number_plain s :
  forallb digit_or_dot s = true ->
  (number s = None <-> plain_decimal s = false).
Proof.
  intros H. destruct (break_dot_class s H) as (ip & r & Hb & -> & Hip & Hr).
  unfold number, plain_decimal. rewrite Hb.
  rewrite count_occ_app, existsb_app, (digits_no_dot ip Hip). simpl.
  destruct Hr as [-> | (fp & -> & Hfp)].
  - simpl. rewrite orb_false_r. destruct ip as [|c ip].
    + simpl. tauto.
    + rewrite digitpart_digits, digits_exist by (auto; discriminate).
      simpl. split; discriminate.
  - simpl. destruct (forallb is_digit fp) eqn:Dfp.
    + rewrite (digits_no_dot fp Dfp). simpl.
      destruct ip as [|c ip], fp as [|c' fp];
        rewrite ?digitpart_digits, ?digits_exist by (auto; discriminate);
        simpl; try tauto; try (split; discriminate).
      simpl in Dfp. apply andb_true_iff in Dfp as [-> _].
      simpl. split; discriminate.
    + pose proof (class_dot_count fp Hfp Dfp) as Hc.
      assert (E : (count_occ ascii_dec fp "."%char <=? 0) = false)
        by (apply Nat.leb_gt; lia).
      rewrite E. simpl.
      assert (Hne : fp <> []) by (intros ->; discriminate).
      rewrite (digitpart_dot fp Hfp Dfp).
      destruct ip as [|c ip], fp as [|c' fp]; try congruence;
        split; auto; intros _; try reflexivity.
      destruct (digitpart (c :: ip)); reflexivity.
Qed.

Lemma float_plain s :
  forallb digit_or_dot s = true -> plain_decimal s = true ->
  exists v, float s = Ok v /\ float_nonneg v = true.
Proof.
  intros H Hp. rewrite float_class by auto.
  destruct (number s) as [[ds k]|] eqn:E.
  - eexists. split; eauto. apply of_decimal_nonneg.
  - apply number_plain in E; auto. congruence.
Qed.

Lemma float_malformed s :
  forallb digit_or_dot s = true -> plain_decimal s = false ->
  float s = Raise ValueError.
Proof.
  intros H Hp. rewrite float_class by auto.
  apply number_plain in Hp; auto. now rewrite Hp.
Qed.

Lemma float_class_cases s :
  forallb digit_or_dot s = true ->
  (exists v, float s = Ok v /\ float_nonneg v = true) \/ float s = Raise ValueError.
Proof.
  intros H. destruct (plain_decimal s) eqn:E.
  - left. now apply float_plain.
  - right. now apply float_malformed.
Qed.

(** A number written with a point between two runs of digits. *)
Lemma float_decimal ip fp :
  ip <> [] -> forallb is_digit ip = true -> forallb is_digit fp = true ->
  float (ip ++ "."%char :: fp) =
  Ok (of_decimal false (decimal_value (ip ++ fp)) (- Z.of_nat (length fp))).
Proof.
  intros Hne Hip Hfp.
  assert (Hb : break is_dot (ip ++ "."%char :: fp) = (ip, "."%char :: fp)).
  { clear Hne. induction ip as [|c ip IH]; simpl in *; auto.
    apply andb_true_iff in Hip as [Hc Hip].
    assert (E : is_dot c = false).
    { unfold is_dot. apply Ascii.eqb_neq. intros ->. discriminate. }
    now rewrite E, IH. }
  rewrite float_class.
  2:{ rewrite forallb_app. simpl. rewrite forallb_forall in *.
      apply andb_true_iff. split; apply forallb_forall; auto using digit_class. }
  unfold number. rewrite Hb. unfold decimal_value. rewrite map_app.
  destruct ip as [|c ip]; [congruence|]. destruct fp as [|c' fp].
  - rewrite digitpart_digits by auto. simpl. now rewrite app_nil_r.
  - rewrite !digitpart_digits by (auto; discriminate).
    rewrite length_map. reflexivity.
Qed.

End PyFacts.

(** ** The function *)

Module ScriptFacts.
Import Re ReSpec ReFacts PatternFacts PyFacts.

(** *** Converting a list *)

Lemma list_map_Forall2 {A B : Type} (f : A -> result B) xs : forall ys,
  list_map f xs = Ok ys <-> Forall2 (fun x y => f x = Ok y) xs ys.
Proof.
  induction xs as [|x xs IH]; simpl; intros ys.
  - split; intros H; inversion H; auto.
  - destruct (f x) as [y|e] eqn:E.
    + destruct (list_map f xs) as [ys'|e'] eqn:E'.
      * split; intros H.
        -- inversion H; subst. constructor; auto. now apply IH.
        -- inversion H as [|x' y' xs' ys'' Hy Hys]; subst.
           apply IH in Hys. congruence.
      * split; intros H; [discriminate|].
        inversion H as [|x' y' xs' ys'' Hy Hys]; subst.
        apply IH in Hys. discriminate.
    + split; intros H; [discriminate|].
      inversion H; subst. congruence.
Qed.

Lemma list_map_length {A B : Type} (f : A -> result B) xs ys :
  list_map f xs = Ok ys -> length ys = length xs.
Proof.
  intros H. apply list_map_Forall2 in H. symmetry. eapply Forall2_length; eauto.
Qed.

Lemma list_map_Forall {A B : Type} (f : A -> result B) (P : A -> Prop) (Q : B -> Prop) xs ys :
  (forall x y, P x -> f x = Ok y -> Q y) ->
  Forall P xs -> list_map f xs = Ok ys -> Forall Q ys.
Proof.
  intros HPQ HP H. apply list_map_Forall2 in H.
  induction H; inversion HP; subst; constructor; eauto.
Qed.

Lemma list_map_all {A B : Type} (f : A -> result B) xs :
  Forall (fun x => exists y, f x = Ok y) xs -> exists ys, list_map f xs = Ok ys.
Proof.
  induction 1 as [|x xs [y Hy] _ [ys IH]]; simpl.
  - now exists [].
  - rewrite Hy, IH. now exists (y :: ys).
Qed.

Lemma list_map_raise {A B : Type} (f : A -> result B) xs e :
  list_map f xs = Raise e -> exists x, In x xs /\ f x = Raise e.
Proof.
  induction xs as [|x xs IH]; simpl; [discriminate|].
  destruct (f x) as [y|e'] eqn:E.
  - destruct (list_map f xs) as [ys|e''] eqn:E'; [discriminate|].
    intros H. inversion H; subst. destruct (IH eq_refl) as (x' & Hin & Hx').
    exists x'. auto.
  - intros H. inversion H; subst. exists x. auto.
Qed.

Lemma list_map_fails {A B : Type} (f : A -> result B) xs x :
  In x xs -> f x = Raise ValueError ->
  (forall x' e, f x' = Raise e -> e = ValueError) ->
  list_map f xs = Raise ValueError.
Proof.
  intros Hin Hx Hf. destruct (list_map f xs) as [ys|e] eqn:E.
  - apply list_map_Forall2 in E. exfalso. revert Hin.
    induction E as [|x' y' xs' ys' Hy _ IH]; simpl; [tauto|].
    intros [-> | Hin]; [congruence | auto].
  - apply list_map_raise in E as (x' & _ & Hx'). now rewrite (Hf x' e Hx').
Qed.

Lemma list_map_repeat {A B : Type} (f : A -> result B) x y n :
  f x = Ok y -> list_map f (repeat x n) = Ok (repeat y n).
Proof.
  intros H. induction n as [|n IH]; simpl; auto. now rewrite H, IH.
Qed.

(** *** The only exception of the conversions *)

Lemma int_raises L s e : Py.int L s = Raise e -> e = ValueError.
Proof.
  unfold Py.int. destruct (Py.split_sign (Py.strip s)) as [neg body].
  destruct (Py.digitpart body) as [ds|]; [|congruence].
  destruct (Py.too_long L _); congruence.
Qed.

Lemma float_raises s e : Py.float s = Raise e -> e = ValueError.
Proof.
  unfold Py.float. intros H.
  repeat match type of H with
         | context [match ?x with _ => _ end] => destruct x
         end; congruence.
Qed.

Lemma convert_raises L data e : convert L data = Raise e -> e = ValueError.
Proof.
  unfold convert.
  destruct (list_map (Py.int L) _) as [s|e1] eqn:E1.
  - destruct (list_map Py.float (findall elapsed_re data)) as [el|e2] eqn:E2.
    + destruct (list_map Py.float (findall rate_re data)) as [rt|e3] eqn:E3;
        [discriminate|].
      intros H. inversion H; subst. apply list_map_raise in E3 as (x & _ & Hx).
      eapply float_raises; eauto.
    + intros H. inversion H; subst. apply list_map_raise in E2 as (x & _ & Hx).
      eapply float_raises; eauto.
  - intros H. inversion H; subst. apply list_map_raise in E1 as (x & _ & Hx).
    eapply int_raises; eauto.
Qed.

Lemma convert_ok L data s e r :
  convert L data = Ok (s, e, r) <->
  list_map (Py.int L) (findall size_re data) = Ok s /\
  list_map Py.float (findall elapsed_re data) = Ok e /\
  list_map Py.float (findall rate_re data) = Ok r.
Proof.
  unfold convert.
  destruct (list_map (Py.int L) _) as [s'|e1];
    [|split; [discriminate | intros (H & _); discriminate]].
  destruct (list_map Py.float (findall elapsed_re data)) as [e'|e2];
    [|split; [discriminate | intros (_ & H & _); discriminate]].
  destruct (list_map Py.float (findall rate_re data)) as [r'|e3];
    [|split; [discriminate | intros (_ & _ & H); discriminate]].
  split.
  - intros H. inversion H; subst. auto.
  - intros (H1 & H2 & H3). inversion H1; inversion H2; inversion H3. reflexivity.
Qed.

(** *** Reading the file *)

Lemma parse_found L p w data :
  files w p = Content data ->
  parse_benchmark_log L p w = (convert L data, w).
Proof.
  intros H. destruct w as [fs hs]. simpl in H.
  unfold parse_benchmark_log, bind, with_open, open, read, close, lift, ret, convert.
  simpl. rewrite H. simpl. rewrite H. simpl.
  destruct (list_eq_dec ascii_dec p p); [|congruence].
  destruct (list_map (Py.int L) _); auto.
  destruct (list_map Py.float (findall elapsed_re data)); auto.
  destruct (list_map Py.float (findall rate_re data)); auto.
Qed.

Lemma parse_no_open L p w e :
  files w p = NoOpen e ->
  parse_benchmark_log L p w = (Raise e, w).
Proof.
  intros H. destruct w as [fs hs]. simpl in H.
  unfold parse_benchmark_log, bind, with_open, open. simpl. now rewrite H.
Qed.

Lemma parse_no_read L p w e :
  files w p = NoRead e ->
  parse_benchmark_log L p w = (Raise e, w).
Proof.
  intros H. destruct w as [fs hs]. simpl in H.
  unfold parse_benchmark_log, bind, with_open, open, read, close. simpl.
  rewrite H. simpl. rewrite H. simpl.
  now destruct (list_eq_dec ascii_dec p p); [|congruence].
Qed.

Lemma run_on_found L fs p data :
  fs p = Some data -> run_on L fs p = convert L data.
Proof.
  intros H. unfold run_on.
  rewrite (parse_found L p (World (plain fs) []) data); [reflexivity|].
  simpl. unfold plain. now rewrite H.
Qed.

End ScriptFacts.

(** ** Scanning particular texts *)

Module ScanFacts.
Import Re ReSpec ReFacts PatternFacts PyFacts ScriptFacts.

Lemma search_here r s m : match_at r s = Some m -> search r s = Some m.
Proof. intros H. destruct s; simpl; now rewrite H. Qed.

Lemma findall_nil r : findall r [] = [].
Proof.
  rewrite findall_eq. destruct (search r []) as [m|] eqn:E; auto.
  apply search_shorter in E. simpl in E. lia.
Qed.

(** The pattern starts here: its capture, then the scan of what follows. *)
Lemma findall_hit pre p c u :
  p c = true ->
  findall (pattern pre p) (pre ++ c :: u) =
  (c :: run_of p u) :: findall (pattern pre p) (after_run p u).
Proof.
  intros Hc. rewrite findall_eq.
  now rewrite (search_here _ _ _ (match_at_pat pre p c u Hc)).
Qed.

(** The pattern does not start here: the scan moves one character on. *)
Lemma findall_skip r c s :
  match_at r (c :: s) = None -> findall r (c :: s) = findall r s.
Proof.
  intros H. rewrite (findall_eq r (c :: s)), (findall_eq r s).
  simpl. now rewrite H.
Qed.

Lemma findall_single pre p d t :
  d <> [] -> forallb p d = true ->
  (t = [] \/ exists c t', t = c :: t' /\ p c = false) ->
  findall (pattern pre p) (pre ++ d ++ t) = d :: findall (pattern pre p) t.
Proof.
  intros Hne Hd Ht. destruct d as [|c d]; [congruence|]. simpl in Hd.
  apply andb_true_iff in Hd as [Hc Hd]. simpl. rewrite findall_hit by auto.
  destruct (run_of_app p d t Hd Ht) as [E1 E2]. now rewrite E1, E2.
Qed.

Lemma no_token_char (pre s : text) x :
  In x pre -> ~ In x s -> ~ (exists a b, s = a ++ pre ++ b).
Proof.
  intros Hx Hs (a & b & ->). apply Hs.
  apply in_or_app. right. apply in_or_app. now left.
Qed.

Lemma findall_no_char pre p s x :
  In x pre -> ~ In x s -> findall (pattern pre p) s = [].
Proof.
  intros Hx Hs. apply findall_no_token. eapply no_token_char; eauto.
Qed.

Lemma not_in_class p (d : text) x :
  forallb p d = true -> p x = false -> ~ In x d.
Proof.
  intros Hd Hx Hin. rewrite forallb_forall in Hd. apply Hd in Hin. congruence.
Qed.

(** *** The three patterns *)

Lemma Collected_size data l : Collected size_re data l <-> l = findall size_re data.
Proof. apply (Collected_iff (txt "size=") Py.is_digit). Qed.

Lemma Collected_elapsed data l :
  Collected elapsed_re data l <-> l = findall elapsed_re data.
Proof. apply (Collected_iff (txt "elapsed: ") digit_or_dot). Qed.

Lemma Collected_rate data l : Collected rate_re data l <-> l = findall rate_re data.
Proof. apply (Collected_iff (txt "rate: ") digit_or_dot). Qed.

Lemma size_captures data :
  Forall (fun c => c <> [] /\ forallb Py.is_digit c = true) (findall size_re data).
Proof. apply (findall_captures (txt "size=") Py.is_digit). Qed.

Lemma elapsed_captures data :
  Forall (fun c => c <> [] /\ forallb digit_or_dot c = true) (findall elapsed_re data).
Proof. apply (findall_captures (txt "elapsed: ") digit_or_dot). Qed.

Lemma rate_captures data :
  Forall (fun c => c <> [] /\ forallb digit_or_dot c = true) (findall rate_re data).
Proof. apply (findall_captures (txt "rate: ") digit_or_dot). Qed.

(** *** The pieces of [sample] *)

Ltac skip_block :=
  intros; unfold txt; cbn [list_ascii_of_string app];
  repeat (rewrite findall_skip by reflexivity); reflexivity.

Lemma size_over_size t :
  findall size_re (txt "size=1 " ++ t) = txt "1" :: findall size_re t.
Proof.
  change (txt "size=1 " ++ t) with (txt "size=" ++ "1"%char :: " "%char :: t).
  change size_re with (pattern (txt "size=") Py.is_digit).
  rewrite findall_hit by reflexivity. cbn [run_of after_run].
  change (Py.is_digit " ") with false. cbv iota.
  now rewrite findall_skip by reflexivity.
Qed.

Lemma elapsed_over_elapsed t :
  findall elapsed_re (txt "elapsed: 1 " ++ t) = txt "1" :: findall elapsed_re t.
Proof.
  change (txt "elapsed: 1 " ++ t) with (txt "elapsed: " ++ "1"%char :: " "%char :: t).
  change elapsed_re with (pattern (txt "elapsed: ") digit_or_dot).
  rewrite findall_hit by reflexivity. cbn [run_of after_run].
  change (digit_or_dot " ") with false. cbv iota.
  now rewrite findall_skip by reflexivity.
Qed.

Lemma rate_over_rate t :
  findall rate_re (txt "rate: 1 " ++ t) = txt "1" :: findall rate_re t.
Proof.
  change (txt "rate: 1 " ++ t) with (txt "rate: " ++ "1"%char :: " "%char :: t).
  change rate_re with (pattern (txt "rate: ") digit_or_dot).
  rewrite findall_hit by reflexivity. cbn [run_of after_run].
  change (digit_or_dot " ") with false. cbv iota.
  now rewrite findall_skip by reflexivity.
Qed.

Lemma size_over_elapsed t :
  findall size_re (txt "elapsed: 1 " ++ t) = findall size_re t.
Proof. skip_block. Qed.

Lemma size_over_rate t : findall size_re (txt "rate: 1 " ++ t) = findall size_re t.
Proof. skip_block. Qed.

Lemma elapsed_over_size t :
  findall elapsed_re (txt "size=1 " ++ t) = findall elapsed_re t.
Proof. skip_block. Qed.

Lemma elapsed_over_rate t :
  findall elapsed_re (txt "rate: 1 " ++ t) = findall elapsed_re t.
Proof. skip_block. Qed.

Lemma rate_over_size t : findall rate_re (txt "size=1 " ++ t) = findall rate_re t.
Proof. skip_block. Qed.

Lemma rate_over_elapsed t :
  findall rate_re (txt "elapsed: 1 " ++ t) = findall rate_re t.
Proof. skip_block. Qed.

Lemma over_blocks r b x n t :
  (forall u, findall r (b ++ u) = x ++ findall r u) ->
  findall r (blocks b n ++ t) = concat (repeat x n) ++ findall r t.
Proof.
  intros H. unfold blocks. induction n as [|n IH]; simpl; auto.
  now rewrite <- !app_assoc, H, IH.
Qed.

Lemma concat_repeat_nil {A : Type} n : concat (repeat (@nil A) n) = [].
Proof. induction n; simpl; auto. Qed.

Lemma concat_repeat_one {A : Type} (x : A) n : concat (repeat [x] n) = repeat x n.
Proof. induction n; simpl; congruence. Qed.

Lemma findall_size_sample a b c : findall size_re (sample a b c) = repeat (txt "1") a.
Proof.
  unfold sample.
  rewrite (over_blocks size_re _ [txt "1"]) by apply size_over_size.
  rewrite (over_blocks size_re _ []) by apply size_over_elapsed.
  rewrite <- (app_nil_r (blocks (txt "rate: 1 ") c)).
  rewrite (over_blocks size_re _ []) by apply size_over_rate.
  now rewrite findall_nil, !concat_repeat_nil, concat_repeat_one, !app_nil_r.
Qed.

Lemma findall_elapsed_sample a b c :
  findall elapsed_re (sample a b c) = repeat (txt "1") b.
Proof.
  unfold sample.
  rewrite (over_blocks elapsed_re _ []) by apply elapsed_over_size.
  rewrite (over_blocks elapsed_re _ [txt "1"]) by apply elapsed_over_elapsed.
  rewrite <- (app_nil_r (blocks (txt "rate: 1 ") c)).
  rewrite (over_blocks elapsed_re _ []) by apply elapsed_over_rate.
  now rewrite findall_nil, !concat_repeat_nil, concat_repeat_one, !app_nil_r.
Qed.

Lemma findall_rate_sample a b c : findall rate_re (sample a b c) = repeat (txt "1") c.
Proof.
  unfold sample.
  rewrite (over_blocks rate_re _ []) by apply rate_over_size.
  rewrite (over_blocks rate_re _ []) by apply rate_over_elapsed.
  rewrite <- (app_nil_r (blocks (txt "rate: 1 ") c)).
  rewrite (over_blocks rate_re _ [txt "1"]) by apply rate_over_rate.
  now rewrite findall_nil, !concat_repeat_nil, concat_repeat_one, !app_nil_r.
Qed.

End ScanFacts.

(** ** A file with one field, and the limit of [int] *)

Module FieldFacts.
Import Re ReSpec ReFacts PatternFacts PyFacts ScriptFacts ScanFacts.

Lemma decimal_value_zeros k d :
  decimal_value (repeat "0"%char k ++ d) = decimal_value d.
Proof.
  unfold decimal_value, Py.of_digits. rewrite map_app, fold_left_app.
  f_equal. induction k as [|k IH]; simpl; auto.
Qed.

(** The text after the one field of a file: nothing, or a line feed. *)
Lemma line_end_stops p t :
  t = [] \/ t = [newline] -> p newline = false ->
  t = [] \/ exists c t', t = c :: t' /\ p c = false.
Proof.
  intros [-> | ->] H; auto. right. now exists newline, [].
Qed.

Lemma size_alone (L : N) d t :
  d <> [] -> forallb Py.is_digit d = true -> within_limit L d ->
  t = [] \/ t = [newline] ->
  convert L (txt "size=" ++ d ++ t) = Ok ([Z.of_N (decimal_value d)], [], []).
Proof.
  intros Hne Hd Hl Ht.
  assert (Hno : forall x, ~ In x (txt "size=") -> Py.is_digit x = false ->
                          x <> newline -> ~ In x (txt "size=" ++ d ++ t)).
  { intros x H1 H2 H3 H. apply in_app_or in H as [H | H]; auto.
    apply in_app_or in H as [H | H].
    - now apply (not_in_class Py.is_digit d x).
    - destruct Ht as [-> | ->]; simpl in H; intuition congruence. }
  unfold convert.
  change size_re with (pattern (txt "size=") Py.is_digit).
  rewrite findall_single by (auto using line_end_stops).
  rewrite (findall_no_char (txt "elapsed: ") digit_or_dot _ "l"%char);
    [ | vm_compute; tauto
      | apply Hno; [vm_compute; intuition discriminate | reflexivity | discriminate] ].
  rewrite (findall_no_char (txt "rate: ") digit_or_dot _ "r"%char);
    [ | vm_compute; tauto
      | apply Hno; [vm_compute; intuition discriminate | reflexivity | discriminate] ].
  assert (Et : findall (pattern (txt "size=") Py.is_digit) t = [])
    by (destruct Ht as [-> | ->]; reflexivity).
  rewrite Et. simpl. now rewrite int_short by auto.
Qed.

Lemma rate_alone (L : N) c t v :
  forallb digit_or_dot c = true -> Py.float c = Ok v ->
  t = [] \/ t = [newline] ->
  convert L (txt "rate: " ++ c ++ t) = Ok ([], [], [v]).
Proof.
  intros Hc Hv Ht.
  assert (Hne : c <> []) by (intros ->; discriminate).
  assert (Hno : forall x, ~ In x (txt "rate: ") -> digit_or_dot x = false ->
                          x <> newline -> ~ In x (txt "rate: " ++ c ++ t)).
  { intros x H1 H2 H3 H. apply in_app_or in H as [H | H]; auto.
    apply in_app_or in H as [H | H].
    - now apply (not_in_class digit_or_dot c x).
    - destruct Ht as [-> | ->]; simpl in H; intuition congruence. }
  unfold convert.
  rewrite (findall_no_char (txt "size=") Py.is_digit _ "s"%char);
    [ | vm_compute; tauto
      | apply Hno; [vm_compute; intuition discriminate | reflexivity | discriminate] ].
  rewrite (findall_no_char (txt "elapsed: ") digit_or_dot _ "l"%char);
    [ | vm_compute; tauto
      | apply Hno; [vm_compute; intuition discriminate | reflexivity | discriminate] ].
  change rate_re with (pattern (txt "rate: ") digit_or_dot).
  rewrite findall_single by (auto using line_end_stops).
  assert (Et : findall (pattern (txt "rate: ") digit_or_dot) t = [])
    by (destruct Ht as [-> | ->]; reflexivity).
  rewrite Et. simpl. now rewrite Hv.
Qed.

Lemma too_long_spec (L : N) c :
  Py.too_long L (N.of_nat (length c)) = false <-> within_limit L c.
Proof.
  unfold Py.too_long, within_limit.
  rewrite !andb_false_iff, !N.ltb_ge. lia.
Qed.

Lemma float_of_capture c v :
  forallb digit_or_dot c = true -> Py.float c = Ok v -> float_nonneg v = true.
Proof.
  intros Hc Hv. destruct (float_class_cases c Hc) as [(v' & E & Hn) | E];
    congruence.
Qed.

End FieldFacts.

(** ** The captures as the fields of the text *)

Module TokenFacts.
Import Re ReSpec ReFacts PatternFacts PyFacts ScriptFacts ScanFacts.

Lemma after_prefix_app pre u : after_prefix pre (pre ++ u) = Some u.
Proof.
  induction pre as [|c pre IH]; simpl; auto. now rewrite Ascii.eqb_refl.
Qed.

Lemma after_prefix_inv pre : forall s u, after_prefix pre s = Some u -> s = pre ++ u.
Proof.
  induction pre as [|c pre IH]; simpl; intros s u H.
  - congruence.
  - destruct s as [|c' s]; [discriminate|].
    destruct (Ascii.eqb c c') eqn:E; [|discriminate].
    apply Ascii.eqb_eq in E. subst c'. f_equal. now apply IH.
Qed.

(** The position holds no field: the reading moves one character on. *)
Lemma tokens_skip pre p c s :
  after_prefix pre (c :: s) = None -> tokens pre p (c :: s) = tokens pre p s.
Proof. intros H. cbn [tokens]. now rewrite H. Qed.

Lemma tokens_skip_chars c0 pre p u t :
  Forall (fun c => c <> c0) u ->
  tokens (c0 :: pre) p (u ++ t) = tokens (c0 :: pre) p t.
Proof.
  induction 1 as [|c u Hc _ IH]; simpl app; auto.
  rewrite tokens_skip; auto.
  simpl. destruct (Ascii.eqb c0 c) eqn:E; auto.
  apply Ascii.eqb_eq in E. congruence.
Qed.

Lemma skipn_cons {A : Type} k (l : list A) c v :
  skipn k l = c :: v -> skipn (S k) l = v.
Proof.
  revert l. induction k as [|k IH]; intros l H.
  - simpl in H. now subst.
  - destruct l as [|x l]; [discriminate|]. simpl in H. now apply IH.
Qed.

Lemma border_free_spec pre k :
  border_free pre = true -> 1 <= k -> k < length pre ->
  skipn k pre <> firstn (length pre - k) pre.
Proof.
  unfold border_free. rewrite forallb_forall. intros H Hk Hl E.
  specialize (H k). rewrite in_seq in H.
  assert (Hin : 1 <= k < 1 + (length pre - 1)) by lia.
  apply H in Hin. unfold Py.text_eqb in Hin.
  destruct (list_eq_dec ascii_dec _ _); [discriminate | contradiction].
Qed.

Lemma shorter_prefix {A : Type} (v : list A) : forall pre x u,
  v ++ x = pre ++ u -> length v <= length pre -> v = firstn (length v) pre.
Proof.
  induction v as [|c v IH]; intros pre x u E Hl; auto.
  destruct pre as [|c' pre]; [simpl in Hl; lia|].
  simpl in *. injection E as -> E. f_equal. apply (IH pre x u); auto. lia.
Qed.

(** No field starts at a later character of the literal. *)
Lemma tokens_in_literal pre p x :
  border_free pre = true ->
  forall v k, 1 <= k -> v = skipn k pre ->
              tokens pre p (v ++ x) = tokens pre p x.
Proof.
  intros Hb. induction v as [|c v IH]; intros k Hk Hv; auto.
  simpl app. rewrite tokens_skip.
  - apply (IH (S k)); [lia|]. symmetry. now apply (skipn_cons k pre c).
  - destruct (after_prefix pre (c :: v ++ x)) as [u|] eqn:E; auto.
    exfalso. apply after_prefix_inv in E.
    assert (Hl : length (c :: v) = length pre - k)
      by (rewrite Hv; apply length_skipn).
    assert (Hlt : k < length pre) by (simpl in Hl; lia).
    apply (border_free_spec pre k Hb Hk Hlt).
    rewrite <- Hv, <- Hl.
    apply (shorter_prefix (c :: v) pre x u); auto. lia.
Qed.

Section Fields.
Variable c0 : ascii.
Variable pre' : text.
Variable p : ascii -> bool.
Hypothesis Hborder : border_free (c0 :: pre') = true.
Hypothesis Hc0 : p c0 = false.

Local Abbreviation pre := (c0 :: pre').

Lemma tokens_in_value d t :
  forallb p d = true -> tokens pre p (d ++ t) = tokens pre p t.
Proof.
  intros Hd. apply tokens_skip_chars. apply Forall_forall. intros c Hc E.
  subst c. rewrite forallb_forall in Hd. apply Hd in Hc. congruence.
Qed.

(** What [findall] collects for a pattern whose literal cannot overlap
    itself nor start inside a value: every field of the text, whole. *)
Lemma findall_tokens : forall s, findall (pattern pre p) s = tokens pre p s.
Proof.
  intros s. remember (length s) as n eqn:Hn.
  revert s Hn. induction n as [n IH] using lt_wf_ind. intros s Hn.
  destruct s as [|c s]; [apply findall_nil|].
  destruct (match_at (pattern pre p) (c :: s)) as [m|] eqn:E.
  - destruct (match_at_pat_inv pre p _ _ E) as (c1 & u & Hc1 & Es & _).
    assert (Ha : after_prefix pre (c :: s) = Some (c1 :: u))
      by (rewrite Es; apply after_prefix_app).
    cbn [tokens]. rewrite Ha. cbn [run_of]. rewrite Hc1.
    rewrite Es, findall_hit by auto. f_equal.
    assert (Et : s = pre' ++ (c1 :: run_of p u) ++ after_run p u).
    { simpl in Es. injection Es as _ ->. simpl. now rewrite <- run_split. }
    rewrite Et.
    rewrite (tokens_in_literal pre p _ Hborder pre' 1) by auto.
    rewrite tokens_in_value by (simpl; now rewrite Hc1, run_of_all).
    apply (IH (length (after_run p u))); auto.
    subst n. rewrite Et. simpl. rewrite !length_app. simpl.
    rewrite length_app. lia.
  - rewrite findall_skip by auto.
    rewrite (IH (length s)) by (subst; simpl; lia || auto); auto.
    cbn [tokens].
    destruct (after_prefix pre (c :: s)) as [u|] eqn:Ea; auto.
    destruct u as [|c1 u]; auto. cbn [run_of].
    destruct (p c1) eqn:Hc1; auto.
    apply after_prefix_inv in Ea. rewrite Ea in E.
    now rewrite (match_at_pat pre p c1 u Hc1) in E.
Qed.
End Fields.

Lemma findall_size data : findall size_re data = tokens (txt "size=") Py.is_digit data.
Proof. apply (findall_tokens "s"%char (txt "ize=") Py.is_digit); reflexivity. Qed.

Lemma findall_elapsed data :
  findall elapsed_re data = tokens (txt "elapsed: ") digit_or_dot data.
Proof. apply (findall_tokens "e"%char (txt "lapsed: ") digit_or_dot); reflexivity. Qed.

Lemma findall_rate data :
  findall rate_re data = tokens (txt "rate: ") digit_or_dot data.
Proof. apply (findall_tokens "r"%char (txt "ate: ") digit_or_dot); reflexivity. Qed.

End TokenFacts.

(** ** Texts put together *)

Module ComposeFacts.
Import Re ReSpec ReFacts PatternFacts PyFacts ScriptFacts ScanFacts FieldFacts TokenFacts.

Lemma after_prefix_sep sep b pre : forall a,
  ~ In sep pre ->
  after_prefix pre (a ++ sep :: b)
  = option_map (fun u => u ++ sep :: b) (after_prefix pre a).
Proof.
  induction pre as [|c pre IH]; intros a Hsep; simpl; auto.
  destruct a as [|x a]; simpl.
  - destruct (Ascii.eqb c sep) eqn:E; auto.
    apply Ascii.eqb_eq in E. subst. exfalso. apply Hsep. now left.
  - destruct (Ascii.eqb c x); auto. apply IH. intros H. apply Hsep. now right.
Qed.

Lemma run_of_sep p sep b : forall u,
  p sep = false -> run_of p (u ++ sep :: b) = run_of p u.
Proof.
  intros u H. induction u as [|c u IH]; simpl.
  - now rewrite H.
  - destruct (p c); auto. now rewrite IH.
Qed.

(** A character that is neither of the literal nor of the class separates
    the fields before it from the fields after it. *)
Lemma tokens_sep pre p sep a b :
  pre <> [] -> ~ In sep pre -> p sep = false ->
  tokens pre p (a ++ sep :: b) = tokens pre p (a ++ [sep]) ++ tokens pre p b.
Proof.
  intros Hne Hsep Hp. induction a as [|x a IH].
  - simpl app. rewrite !tokens_skip; auto.
    + destruct pre as [|c pre]; [congruence|]. simpl.
      destruct (Ascii.eqb c sep) eqn:E; auto.
      apply Ascii.eqb_eq in E. subst. exfalso. apply Hsep. now left.
    + destruct pre as [|c pre]; [congruence|]. simpl.
      destruct (Ascii.eqb c sep) eqn:E; auto.
      apply Ascii.eqb_eq in E. subst. exfalso. apply Hsep. now left.
  - change ((x :: a) ++ sep :: b) with (x :: a ++ sep :: b).
    change ((x :: a) ++ [sep]) with (x :: a ++ [sep]).
    cbn [tokens].
    change (x :: a ++ sep :: b) with ((x :: a) ++ sep :: b).
    change (x :: a ++ [sep]) with ((x :: a) ++ [sep]).
    rewrite !after_prefix_sep by auto.
    destruct (after_prefix pre (x :: a)) as [u|]; cbn [option_map]; auto.
    rewrite !run_of_sep by auto.
    destruct (run_of p u); auto. simpl. now rewrite IH.
Qed.

Lemma list_map_app {A B : Type} (f : A -> result B) xs ys :
  list_map f (xs ++ ys) =
  match list_map f xs, list_map f ys with
  | Ok a, Ok b => Ok (a ++ b)
  | Raise e, _ => Raise e
  | Ok _, Raise e => Raise e
  end.
Proof.
  induction xs as [|x xs IH]; simpl.
  - now destruct (list_map f ys).
  - destruct (f x); auto. rewrite IH.
    destruct (list_map f xs); auto. now destruct (list_map f ys).
Qed.

Lemma list_map_int_raises L xs e :
  list_map (Py.int L) xs = Raise e -> e = ValueError.
Proof.
  intros H. apply list_map_raise in H as (x & _ & H). eapply int_raises; eauto.
Qed.

Lemma list_map_float_raises xs e :
  list_map Py.float xs = Raise e -> e = ValueError.
Proof.
  intros H. apply list_map_raise in H as (x & _ & H). eapply float_raises; eauto.
Qed.

Lemma findall_lines r pre p a b :
  (forall s, findall r s = tokens pre p s) ->
  pre <> [] -> ~ In newline pre -> p newline = false ->
  findall r (a ++ newline :: b) = findall r (a ++ [newline]) ++ findall r b.
Proof.
  intros H Hne Hin Hp. rewrite !H. now apply tokens_sep.
Qed.

Lemma size_lines a b :
  findall size_re (a ++ newline :: b)
  = findall size_re (a ++ [newline]) ++ findall size_re b.
Proof.
  apply (findall_lines _ _ _ _ _ findall_size); try reflexivity; try discriminate.
  vm_compute. intuition discriminate.
Qed.

Lemma elapsed_lines a b :
  findall elapsed_re (a ++ newline :: b)
  = findall elapsed_re (a ++ [newline]) ++ findall elapsed_re b.
Proof.
  apply (findall_lines _ _ _ _ _ findall_elapsed); try reflexivity; try discriminate.
  vm_compute. intuition discriminate.
Qed.

Lemma rate_lines a b :
  findall rate_re (a ++ newline :: b)
  = findall rate_re (a ++ [newline]) ++ findall rate_re b.
Proof.
  apply (findall_lines _ _ _ _ _ findall_rate); try reflexivity; try discriminate.
  vm_compute. intuition discriminate.
Qed.

Lemma convert_lines L a b :
  convert L (a ++ newline :: b)
  = result_app (convert L (a ++ [newline])) (convert L b).
Proof.
  unfold convert. rewrite size_lines, elapsed_lines, rate_lines, !list_map_app.
  repeat match goal with
         | |- context [list_map (Py.int L) ?l] =>
             let E := fresh "E" in
             destruct (list_map (Py.int L) l) eqn:E;
             [|apply list_map_int_raises in E; subst]
         | |- context [list_map Py.float ?l] =>
             let E := fresh "E" in
             destruct (list_map Py.float l) eqn:E;
             [|apply list_map_float_raises in E; subst]
         end; reflexivity.
Qed.

End ComposeFacts.

(** ** A log written record by record *)

Module LogFacts.
Import Re ReSpec ReFacts PatternFacts PyFacts ScriptFacts ScanFacts FieldFacts
       TokenFacts ComposeFacts.

Lemma class_other p (u : text) c0 :
  forallb p u = true -> p c0 = false -> Forall (fun c => c <> c0) u.
Proof.
  intros Hu Hc. apply Forall_forall. intros c Hin E. subst c.
  rewrite forallb_forall in Hu. apply Hu in Hin. congruence.
Qed.

Lemma digits_class (u : text) :
  forallb Py.is_digit u = true -> forallb digit_or_dot u = true.
Proof.
  rewrite !forallb_forall. auto using digit_class.
Qed.

Lemma tokens_single pre p d t :
  (forall s, findall (pattern pre p) s = tokens pre p s) ->
  d <> [] -> forallb p d = true ->
  (t = [] \/ exists c t', t = c :: t' /\ p c = false) ->
  tokens pre p (pre ++ d ++ t) = d :: tokens pre p t.
Proof.
  intros H Hne Hd Ht. rewrite <- !H. now apply findall_single.
Qed.

Ltac skip_literal :=
  unfold txt; cbn [list_ascii_of_string app];
  repeat (rewrite tokens_skip by reflexivity).

Section OneLine.
Variable x : entry.
Hypothesis Hs : forallb Py.is_digit (size_text x) = true.
Hypothesis Hsne : size_text x <> [].
Hypothesis He : forallb digit_or_dot (elapsed_text x) = true.
Hypothesis Hene : elapsed_text x <> [].
Hypothesis Hr : forallb digit_or_dot (rate_text x) = true.
Hypothesis Hrne : rate_text x <> [].

Lemma size_of_line : findall size_re (entry_line x) = [size_text x].
Proof.
  rewrite findall_size. unfold entry_line.
  rewrite (tokens_single (txt "size=") Py.is_digit) ;
    [ | apply findall_size | assumption | assumption
      | right; now exists " "%char, (txt "elapsed: " ++ elapsed_text x
                                     ++ txt " rate: " ++ rate_text x ++ [newline]) ].
  f_equal. skip_literal.
  rewrite (tokens_skip_chars "s" (txt "ize=") Py.is_digit (elapsed_text x))
    by (apply (class_other digit_or_dot); auto).
  skip_literal.
  rewrite (tokens_skip_chars "s" (txt "ize=") Py.is_digit (rate_text x))
    by (apply (class_other digit_or_dot); auto).
  skip_literal. reflexivity.
Qed.

Lemma elapsed_of_line : findall elapsed_re (entry_line x) = [elapsed_text x].
Proof.
  rewrite findall_elapsed. unfold entry_line. skip_literal.
  rewrite (tokens_skip_chars "e" (txt "lapsed: ") digit_or_dot (size_text x))
    by (apply (class_other Py.is_digit); auto).
  unfold txt; cbn [list_ascii_of_string app].
  rewrite tokens_skip by reflexivity.
  change ("e"%char :: "l"%char :: "a"%char :: "p"%char :: "s"%char :: "e"%char
            :: "d"%char :: ":"%char :: " "%char
            :: elapsed_text x
               ++ " "%char :: "r"%char :: "a"%char :: "t"%char :: "e"%char
                  :: ":"%char :: " "%char :: rate_text x ++ [newline])
    with (txt "elapsed: " ++ elapsed_text x
            ++ " "%char :: txt "rate: " ++ rate_text x ++ [newline]).
  rewrite (tokens_single (txt "elapsed: ") digit_or_dot);
    [ | apply findall_elapsed | assumption | assumption
      | right; now exists " "%char, (txt "rate: " ++ rate_text x ++ [newline]) ].
  f_equal. skip_literal.
  rewrite (tokens_skip_chars "e" (txt "lapsed: ") digit_or_dot (rate_text x))
    by (apply (class_other digit_or_dot); auto).
  skip_literal. reflexivity.
Qed.

Lemma rate_of_line : findall rate_re (entry_line x) = [rate_text x].
Proof.
  rewrite findall_rate. unfold entry_line. skip_literal.
  rewrite (tokens_skip_chars "r" (txt "ate: ") digit_or_dot (size_text x))
    by (apply (class_other Py.is_digit); auto).
  skip_literal.
  rewrite (tokens_skip_chars "r" (txt "ate: ") digit_or_dot (elapsed_text x))
    by (apply (class_other digit_or_dot); auto).
  unfold txt; cbn [list_ascii_of_string app].
  rewrite tokens_skip by reflexivity.
  change ("r"%char :: "a"%char :: "t"%char :: "e"%char :: ":"%char :: " "%char
            :: rate_text x ++ [newline])
    with (txt "rate: " ++ rate_text x ++ [newline]).
  rewrite (tokens_single (txt "rate: ") digit_or_dot);
    [ | apply findall_rate | assumption | assumption
      | right; now exists newline, [] ].
  f_equal.
Qed.
End OneLine.

Lemma plain_nonempty c : plain_decimal c = true -> c <> [].
Proof. intros H ->. discriminate. Qed.

Lemma float_value_ok c :
  forallb digit_or_dot c = true -> plain_decimal c = true ->
  Py.float c = Ok (float_value c).
Proof.
  intros Hc Hp. destruct (float_plain c Hc Hp) as (v & Hv & _).
  unfold float_value. now rewrite Hv.
Qed.

Lemma convert_line L x :
  well_formed L x ->
  convert L (entry_line x)
  = Ok ([Z.of_N (decimal_value (size_text x))],
        [float_value (elapsed_text x)], [float_value (rate_text x)]).
Proof.
  intros (Hsne & Hs & Hl & He & Hep & Hr & Hrp).
  pose proof (plain_nonempty _ Hep) as Hene.
  pose proof (plain_nonempty _ Hrp) as Hrne.
  unfold convert.
  rewrite size_of_line, elapsed_of_line, rate_of_line by assumption.
  simpl. rewrite int_short by auto.
  now rewrite !float_value_ok by auto.
Qed.

End LogFacts.

(** ** Which captures a text has, and how many *)

Module CaptureFacts.
Import Re ReSpec ReFacts PatternFacts PyFacts ScriptFacts ScanFacts FieldFacts
       TokenFacts ComposeFacts LogFacts.

Lemma tokens_complete pre p d b : forall a,
  pre <> [] -> d <> [] -> forallb p d = true -> stops p b ->
  In d (tokens pre p (a ++ pre ++ d ++ b)).
Proof.
  intros a Hpre Hne Hd Hb. induction a as [|x a IH].
  - simpl app. destruct pre as [|c0 pre']; [congruence|].
    change ((c0 :: pre') ++ d ++ b) with (c0 :: pre' ++ d ++ b).
    cbn [tokens].
    change (c0 :: pre' ++ d ++ b) with ((c0 :: pre') ++ d ++ b).
    rewrite after_prefix_app.
    destruct (run_of_app p d b Hd Hb) as [-> _].
    destruct d; [congruence | now left].
  - change ((x :: a) ++ pre ++ d ++ b) with (x :: a ++ pre ++ d ++ b).
    cbn [tokens].
    destruct (after_prefix pre (x :: a ++ pre ++ d ++ b)); auto.
    destruct (run_of p t); auto. now right.
Qed.

Lemma tokens_sound pre p c : forall s,
  In c (tokens pre p s) ->
  exists a b, s = a ++ pre ++ c ++ b
              /\ c <> [] /\ forallb p c = true /\ stops p b.
Proof.
  induction s as [|x s IH]; [intros []|]. cbn [tokens]. intros H.
  assert (Hrec : In c (tokens pre p s) ->
                 exists a b, x :: s = a ++ pre ++ c ++ b
                             /\ c <> [] /\ forallb p c = true /\ stops p b).
  { intros H'. destruct (IH H') as (a & b & -> & Hc).
    now exists (x :: a), b. }
  destruct (after_prefix pre (x :: s)) as [u|] eqn:E; auto.
  destruct (run_of p u) as [|y d] eqn:Er; auto.
  destruct H as [<- | H]; auto.
  apply after_prefix_inv in E. exists [], (after_run p u).
  rewrite <- Er. repeat split.
  - simpl. now rewrite <- run_split.
  - rewrite Er. discriminate.
  - apply run_of_all.
  - apply after_run_stops.
Qed.

(** Each match takes at least the literal and one character of the text. *)
Lemma findall_bound pre p : forall s,
  (length pre + 1) * length (findall (pattern pre p) s) <= length s.
Proof.
  intros s. remember (length s) as n eqn:Hn.
  revert s Hn. induction n as [n IH] using lt_wf_ind. intros s Hn.
  rewrite findall_eq. destruct (search (pattern pre p) s) as [m|] eqn:E.
  - pose proof (search_shorter _ _ _ E) as Hlt.
    destruct (search_some _ _ _ E) as (a & Es & Hm & _).
    apply match_at_sound in Hm as [_ M].
    apply Matches_pat in M as (d & Ew & Hne & _).
    specialize (IH (length (rest m)) ltac:(lia) (rest m) eq_refl).
    assert (Hl : length s = length a + (length pre + length d) + length (rest m)).
    { rewrite Es, Ew, !length_app. lia. }
    assert (Hd : 1 <= length d) by (destruct d; [congruence | simpl; lia]).
    simpl length. nia.
  - simpl. lia.
Qed.

(** The digits of a number in decimal notation. *)
Lemma uint_text_digits d : forallb Py.is_digit (uint_text d) = true.
Proof. induction d; simpl; auto. Qed.

Lemma of_uint_acc_value d : forall acc,
  fold_left (fun a x => 10 * a + x)%N (map dval (uint_text d)) (N.pos acc)
  = N.pos (Pos.of_uint_acc d acc).
Proof.
  induction d; intros acc; cbn [uint_text map fold_left Pos.of_uint_acc];
    auto; rewrite <- IHd; f_equal;
    match goal with
    | |- context [dval ?c] =>
        let v := eval vm_compute in (dval c) in change (dval c) with v
    end; lia.
Qed.

Lemma of_uint_value d : decimal_value (uint_text d) = Pos.of_uint d.
Proof.
  unfold decimal_value, Py.of_digits.
  induction d; cbn [uint_text map fold_left Pos.of_uint]; auto;
    apply of_uint_acc_value.
Qed.

Lemma decimal_text_value n : decimal_value (decimal_text n) = n.
Proof.
  unfold decimal_text. rewrite of_uint_value. apply Unsigned.of_to.
Qed.

Lemma decimal_text_nonempty n : decimal_text n <> [].
Proof.
  unfold decimal_text. destruct n as [|q]; [discriminate|].
  intros H. pose proof (decimal_text_value (N.pos q)) as E.
  unfold decimal_text in E. rewrite H in E. discriminate.
Qed.

Lemma list_map_each {A B : Type} (f : A -> result B) xs ys :
  list_map f xs = Ok ys -> Forall (fun x => exists y, f x = Ok y) xs.
Proof.
  revert ys. induction xs as [|x xs IH]; intros ys H; constructor.
  - simpl in H. destruct (f x) as [y|]; [now exists y | discriminate].
  - simpl in H. destruct (f x); [|discriminate].
    destruct (list_map f xs) as [zs|] eqn:E; [|discriminate]. now apply (IH zs).
Qed.

Lemma int_ok_within L c z :
  c <> [] -> forallb Py.is_digit c = true -> Py.int L c = Ok z -> within_limit L c.
Proof.
  intros Hne Hd H. rewrite int_digits in H by auto.
  apply too_long_spec. destruct (Py.too_long L _); [discriminate | reflexivity].
Qed.

Lemma float_ok_plain c v :
  forallb digit_or_dot c = true -> Py.float c = Ok v -> plain_decimal c = true.
Proof.
  intros Hc H. destruct (plain_decimal c) eqn:E; auto.
  rewrite (float_malformed c Hc E) in H. discriminate.
Qed.

(** The limit on the digits decides whether [int] converts, never what
    it converts to. *)
Lemma int_same_value L1 L2 c z1 z2 :
  Py.int L1 c = Ok z1 -> Py.int L2 c = Ok z2 -> z1 = z2.
Proof.
  unfold Py.int. destruct (Py.split_sign (Py.strip c)) as [neg body].
  destruct (Py.digitpart body) as [ds|]; [|discriminate].
  destruct (Py.too_long L1 _); [discriminate|].
  destruct (Py.too_long L2 _); [discriminate|]. congruence.
Qed.

Lemma list_map_int_same L1 L2 xs : forall s1 s2,
  list_map (Py.int L1) xs = Ok s1 -> list_map (Py.int L2) xs = Ok s2 -> s1 = s2.
Proof.
  induction xs as [|x xs IH]; simpl; intros s1 s2 H1 H2; [congruence|].
  destruct (Py.int L1 x) as [z1|] eqn:E1; [|discriminate].
  destruct (Py.int L2 x) as [z2|] eqn:E2; [|discriminate].
  destruct (list_map (Py.int L1) xs) as [t1|]; [|discriminate].
  destruct (list_map (Py.int L2) xs) as [t2|]; [|discriminate].
  injection H1 as <-. injection H2 as <-.
  now rewrite (int_same_value L1 L2 x z1 z2 E1 E2), (IH t1 t2).
Qed.

Lemma convert_same_value L1 L2 data t1 t2 :
  convert L1 data = Ok t1 -> convert L2 data = Ok t2 -> t1 = t2.
Proof.
  destruct t1 as [[s1 e1] r1], t2 as [[s2 e2] r2]. intros H1 H2.
  apply convert_ok in H1 as (A1 & B1 & C1).
  apply convert_ok in H2 as (A2 & B2 & C2).
  rewrite (list_map_int_same L1 L2 _ s1 s2 A1 A2). congruence.
Qed.

Lemma Forall2_In {A B : Type} (R : A -> B -> Prop) xs ys x :
  Forall2 R xs ys -> In x xs -> exists y, In y ys /\ R x y.
Proof.
  induction 1 as [|x' y' xs ys Hxy _ IH]; simpl; [tauto|].
  intros [-> | Hin].
  - exists y'. auto.
  - destruct (IH Hin) as (y & Hy & Hr). exists y. auto.
Qed.

(** A written size, wherever it stands, among the sizes returned. *)
Lemma size_token_value L data s e r a z b :
  convert L data = Ok (s, e, r) ->
  data = a ++ txt "size=" ++ z ++ b ->
  z <> [] -> forallb Py.is_digit z = true -> stops Py.is_digit b ->
  In (Z.of_N (decimal_value z)) s.
Proof.
  intros H -> Hne Hz Hb. apply convert_ok in H as (H1 & _ & _).
  apply list_map_Forall2 in H1.
  assert (Hin : In z (findall size_re (a ++ txt "size=" ++ z ++ b))).
  { rewrite findall_size. apply tokens_complete; auto. discriminate. }
  destruct (Forall2_In _ _ _ z H1 Hin) as (v & Hv & Hc).
  rewrite int_digits in Hc by auto.
  destruct (Py.too_long L _); [discriminate|]. now injection Hc as <-.
Qed.

(** A written rate, wherever it stands, among the rates returned. *)
Lemma rate_token_value L data s e r a c b :
  convert L data = Ok (s, e, r) ->
  data = a ++ txt "rate: " ++ c ++ b ->
  c <> [] -> forallb digit_or_dot c = true -> stops digit_or_dot b ->
  Py.float c = Ok (float_value c) /\ In (float_value c) r.
Proof.
  intros H -> Hne Hc Hb. apply convert_ok in H as (_ & _ & H3).
  apply list_map_Forall2 in H3.
  assert (Hin : In c (findall rate_re (a ++ txt "rate: " ++ c ++ b))).
  { rewrite findall_rate. apply tokens_complete; auto. discriminate. }
  destruct (Forall2_In _ _ _ c H3 Hin) as (v & Hv & Hf).
  unfold float_value. rewrite Hf. auto.
Qed.

(** A written size beyond the limit of [int], wherever it stands, makes
    the conversion raise. *)
Lemma size_token_beyond L data a z b :
  data = a ++ txt "size=" ++ z ++ b ->
  z <> [] -> forallb Py.is_digit z = true -> stops Py.is_digit b ->
  ~ within_limit L z -> convert L data = Raise ValueError.
Proof.
  intros -> Hne Hz Hb Hl.
  destruct (convert L _) as [[[s e] r]|ex] eqn:H.
  - exfalso. apply Hl. apply convert_ok in H as (H1 & _ & _).
    apply list_map_Forall2 in H1.
    assert (Hin : In z (findall size_re (a ++ txt "size=" ++ z ++ b))).
    { rewrite findall_size. apply tokens_complete; auto. discriminate. }
    destruct (Forall2_In _ _ _ z H1 Hin) as (v & Hv & Hc).
    now apply (int_ok_within L z v).
  - now rewrite (convert_raises _ _ _ H).
Qed.

(** A written rate with a point between its digits, wherever it stands:
    the quotient of its digits by the power of ten, rounded once. *)
Lemma rate_token_decimal L data s e r a ip fp b :
  convert L data = Ok (s, e, r) ->
  data = a ++ txt "rate: " ++ (ip ++ "."%char :: fp) ++ b ->
  ip <> [] -> forallb Py.is_digit ip = true -> forallb Py.is_digit fp = true ->
  stops digit_or_dot b ->
  In (Py.of_decimal false (decimal_value (ip ++ fp)) (- Z.of_nat (length fp))) r.
Proof.
  intros H Hd Hne Hip Hfp Hb.
  destruct (rate_token_value L data s e r a (ip ++ "."%char :: fp) b H Hd)
    as [Hf Hin]; auto.
  - destruct ip; discriminate.
  - rewrite forallb_app. simpl. rewrite forallb_forall in *.
    apply andb_true_iff. split; apply forallb_forall; auto using digit_class.
  - rewrite (float_decimal ip fp Hne Hip Hfp) in Hf. injection Hf as ->.
    exact Hin.
Qed.

Lemma marker_stops m rest : Py.is_e m = true -> stops digit_or_dot (m :: rest).
Proof.
  intros H. right. exists m, rest. split; auto.
  unfold Py.is_e in H. apply orb_true_iff in H as [H | H];
    apply Ascii.eqb_eq in H; now subst.
Qed.

(** A rate with an exponent, alone in its file: the part before the
    exponent is all that is read. *)
Lemma rate_then_exponent (L : N) c v m x t :
  forallb digit_or_dot c = true -> Py.float c = Ok v ->
  Py.is_e m = true -> forallb exponent_char x = true ->
  t = [] \/ t = [newline] ->
  convert L (txt "rate: " ++ c ++ (m :: x) ++ t) = Ok ([], [], [v]).
Proof.
  intros Hc Hv Hm Hx Ht.
  assert (Hne : c <> []) by (intros ->; discriminate).
  assert (Hmx : forallb exponent_char (m :: x) = true).
  { simpl. rewrite Hx, andb_true_r. unfold exponent_char. now rewrite Hm. }
  assert (Hno : forall y, ~ In y (txt "rate: ") -> digit_or_dot y = false ->
                          exponent_char y = false -> y <> newline ->
                          ~ In y (txt "rate: " ++ c ++ (m :: x) ++ t)).
  { intros y H1 H2 H3 H4 H. apply in_app_or in H as [H | H]; auto.
    apply in_app_or in H as [H | H];
      [now apply (not_in_class digit_or_dot c y)|].
    apply in_app_or in H as [H | H];
      [now apply (not_in_class exponent_char (m :: x) y)|].
    destruct Ht as [-> | ->]; simpl in H; intuition congruence. }
  unfold convert.
  rewrite (findall_no_char (txt "size=") Py.is_digit _ "s"%char);
    [ | vm_compute; tauto
      | apply Hno; [vm_compute; intuition discriminate | reflexivity
                    | reflexivity | discriminate] ].
  rewrite (findall_no_char (txt "elapsed: ") digit_or_dot _ "l"%char);
    [ | vm_compute; tauto
      | apply Hno; [vm_compute; intuition discriminate | reflexivity
                    | reflexivity | discriminate] ].
  change rate_re with (pattern (txt "rate: ") digit_or_dot).
  rewrite findall_single;
    [ | exact Hne | exact Hc | exact (marker_stops m (x ++ t) Hm) ].
  rewrite (findall_no_char (txt "rate: ") digit_or_dot ((m :: x) ++ t) "r"%char);
    [ | vm_compute; tauto | ].
  - simpl. now rewrite Hv.
  - intros H. apply in_app_or in H as [H | H].
    + now apply (not_in_class exponent_char (m :: x) "r"%char).
    + destruct Ht as [-> | ->]; simpl in H; intuition discriminate.
Qed.

End CaptureFacts.

(** * The claims *)

Import Re ReSpec ReFacts PatternFacts PyFacts ScriptFacts ScanFacts FieldFacts
       TokenFacts ComposeFacts LogFacts CaptureFacts.

(** C1, as amended.  For every file text, [parse_benchmark_log] returns
    three sequences exactly when every numeric conversion succeeds, and the
    sequences are then the ones obtained by collecting, in order of
    appearance, all non-overlapping matches of the three patterns over the
    whole text, the size captures converted with [int] and the elapsed and
    rate captures converted with [float]; on any other text the function
    raises [ValueError] and returns nothing. *)
Theorem C1_collects_and_converts (L : N) fs p data :
  fs p = Some data ->
  (forall s e r,
      run_on L fs p = Ok (s, e, r) <->
      exists sz el rt,
        Collected size_re data sz /\ Collected elapsed_re data el
        /\ Collected rate_re data rt
        /\ Forall2 (fun c v => Py.int L c = Ok v) sz s
        /\ Forall2 (fun c v => Py.float c = Ok v) el e
        /\ Forall2 (fun c v => Py.float c = Ok v) rt r)
  /\ ((forall res, run_on L fs p <> Ok res) -> run_on L fs p = Raise ValueError).
Proof.
  intros Hfs. rewrite (run_on_found L fs p data Hfs). split.
  - intros s e r. rewrite convert_ok, !list_map_Forall2. split.
    + intros (H1 & H2 & H3).
      exists (findall size_re data), (findall elapsed_re data), (findall rate_re data).
      repeat split; auto;
        [apply Collected_size | apply Collected_elapsed | apply Collected_rate];
        reflexivity.
    + intros (sz & el & rt & C1 & C2 & C3 & H1 & H2 & H3).
      apply Collected_size in C1. apply Collected_elapsed in C2.
      apply Collected_rate in C3. subst. auto.
  - intros H. destruct (convert L data) as [res|e] eqn:E.
    + now destruct (H res).
    + now rewrite (convert_raises L data e E).
Qed.

Lemma C1_collects_and_converts_witness :
  one_file log_path two_lines log_path = Some two_lines
  /\ exists sz el rt,
       Collected size_re two_lines sz /\ Collected elapsed_re two_lines el
       /\ Collected rate_re two_lines rt
       /\ Forall2 (fun c v => Py.int 4300 c = Ok v) sz [10; 20]%Z
       /\ Forall2 (fun c v => Py.float c = Ok v) el [f_1_5; f_3_0]
       /\ Forall2 (fun c v => Py.float c = Ok v) rt [f_6_7; f_6_6].
Proof.
  split; [reflexivity|].
  apply (C1_collects_and_converts 4300 (one_file log_path two_lines) log_path
           two_lines eq_refl).
  vm_compute. reflexivity.
Defined.

(** C1, as stated, fails: on the one line [rate: .] the pattern of the rate
    captures a lone point, [float] refuses it, and the function returns no
    sequences. *)
Lemma C1_counterexample :
  Collected rate_re (txt "rate: .") [txt "."]
  /\ Py.float (txt ".") = Raise ValueError
  /\ run_on 4300 (one_file log_path (txt "rate: .")) log_path = Raise ValueError
  /\ ~ (exists s e r,
          run_on 4300 (one_file log_path (txt "rate: .")) log_path = Ok (s, e, r)).
Proof.
  assert (Hraise : run_on 4300 (one_file log_path (txt "rate: .")) log_path
                   = Raise ValueError) by (vm_compute; reflexivity).
  repeat apply conj.
  - apply Collected_rate. vm_compute. reflexivity.
  - vm_compute. reflexivity.
  - exact Hraise.
  - intros (s & e & r & H). rewrite Hraise in H. discriminate.
Qed.

(** C2.  For a file that consists of the lines
    [size=10 elapsed: 1.5 rate: 6.7] and [size=20 elapsed: 3.0 rate: 6.6]
    (the last line ended by a line feed or not), the function returns
    sizes [[10; 20]], elapsed [[1.5; 3.0]] and rate [[6.7; 6.6]], the
    floats being the binary64 numbers nearest to those decimals. *)
Theorem C2_two_lines (L : N) fs p :
  fs p = Some two_lines \/ fs p = Some two_lines_open ->
  run_on L fs p = Ok ([10; 20]%Z, [f_1_5; f_3_0], [f_6_7; f_6_6])
  /\ nearest_to 15 10 f_1_5 /\ nearest_to 30 10 f_3_0
  /\ nearest_to 67 10 f_6_7 /\ nearest_to 66 10 f_6_6.
Proof.
  intros H. split.
  - destruct H as [H | H]; rewrite (run_on_found L fs p _ H);
      vm_compute; reflexivity.
  - repeat split; vm_compute; congruence.
Qed.

Lemma C2_two_lines_witness :
  one_file log_path two_lines log_path = Some two_lines
  /\ run_on 4300 (one_file log_path two_lines) log_path
     = Ok ([10; 20]%Z, [f_1_5; f_3_0], [f_6_7; f_6_6]).
Proof.
  split; [reflexivity|].
  apply (C2_two_lines 4300 (one_file log_path two_lines) log_path).
  left. reflexivity.
Defined.

(** C3.  For a file whose content is the empty string, the function returns
    three empty sequences. *)
Theorem C3_empty_file (L : N) fs p :
  fs p = Some [] -> run_on L fs p = Ok ([], [], []).
Proof.
  intros H. now rewrite (run_on_found L fs p _ H).
Qed.

Lemma C3_empty_file_witness :
  one_file log_path [] log_path = Some []
  /\ run_on 4300 (one_file log_path []) log_path = Ok ([], [], []).
Proof.
  split; [reflexivity|].
  apply (C3_empty_file 4300 (one_file log_path []) log_path). reflexivity.
Defined.

(** C4.  For every file text on which parsing succeeds, the length of each
    returned sequence is the number of matches of its own pattern in the
    text; and nothing relates the three lengths: for any three numbers
    there is a text on which the function returns sequences of exactly
    those lengths. *)
Theorem C4_lengths :
  (forall (L : N) fs p data s e r sz el rt,
      fs p = Some data -> run_on L fs p = Ok (s, e, r) ->
      Collected size_re data sz -> Collected elapsed_re data el ->
      Collected rate_re data rt ->
      length s = length sz /\ length e = length el /\ length r = length rt)
  /\ (forall a b c : nat, exists data,
        forall (L : N) fs p, fs p = Some data ->
          exists s e r, run_on L fs p = Ok (s, e, r)
                        /\ length s = a /\ length e = b /\ length r = c).
Proof.
  split.
  - intros L fs p data s e r sz el rt Hfs H C1 C2 C3.
    rewrite (run_on_found L fs p data Hfs) in H.
    apply convert_ok in H as (H1 & H2 & H3).
    apply Collected_size in C1. apply Collected_elapsed in C2.
    apply Collected_rate in C3. subst.
    apply list_map_length in H1, H2, H3. auto.
  - intros a b c. exists (sample a b c). intros L fs p Hfs.
    exists (repeat 1%Z a), (repeat (b64 4503599627370496 (-52)) b),
           (repeat (b64 4503599627370496 (-52)) c).
    rewrite (run_on_found L fs p _ Hfs), !repeat_length. split; auto.
    apply convert_ok.
    rewrite findall_size_sample, findall_elapsed_sample, findall_rate_sample.
    repeat split; apply list_map_repeat; reflexivity.
Qed.

Lemma C4_lengths_witness :
  one_file log_path two_lines log_path = Some two_lines
  /\ run_on 4300 (one_file log_path two_lines) log_path
     = Ok ([10; 20]%Z, [f_1_5; f_3_0], [f_6_7; f_6_6])
  /\ Collected size_re two_lines [txt "10"; txt "20"]
  /\ Collected elapsed_re two_lines [txt "1.5"; txt "3.0"]
  /\ Collected rate_re two_lines [txt "6.7"; txt "6.6"]
  /\ length [10; 20]%Z = length [txt "10"; txt "20"]
  /\ length [f_1_5; f_3_0] = length [txt "1.5"; txt "3.0"]
  /\ length [f_6_7; f_6_6] = length [txt "6.7"; txt "6.6"].
Proof.
  assert (Hfs : one_file log_path two_lines log_path = Some two_lines)
    by reflexivity.
  assert (Hrun : run_on 4300 (one_file log_path two_lines) log_path
                 = Ok ([10; 20]%Z, [f_1_5; f_3_0], [f_6_7; f_6_6]))
    by (vm_compute; reflexivity).
  assert (C1 : Collected size_re two_lines [txt "10"; txt "20"])
    by (apply Collected_size; vm_compute; reflexivity).
  assert (C2 : Collected elapsed_re two_lines [txt "1.5"; txt "3.0"])
    by (apply Collected_elapsed; vm_compute; reflexivity).
  assert (C3 : Collected rate_re two_lines [txt "6.7"; txt "6.6"])
    by (apply Collected_rate; vm_compute; reflexivity).
  repeat (split; [assumption|]).
  exact (proj1 C4_lengths 4300%N (one_file log_path two_lines) log_path two_lines
           _ _ _ _ _ _ Hfs Hrun C1 C2 C3).
Defined.

(** C5, as amended.  For a file that contains a [size=] token followed by
    digits and no [elapsed:] or [rate:] token, whatever the function
    returns has a non-empty sizes and empty elapsed and rate, so unequal
    lengths; and it does return when the size values are within what [int]
    converts (at most 640 digits, or within the interpreter's limit on the
    digits).  For the single line [size=10] it returns [[10]], [[]] and
    [[]]. *)
Theorem C5_size_only (L : N) fs p :
  (forall data,
      fs p = Some data ->
      (exists a d b, data = a ++ txt "size=" ++ d ++ b
                     /\ d <> [] /\ forallb Py.is_digit d = true) ->
      ~ has_token (txt "elapsed:") data -> ~ has_token (txt "rate:") data ->
      (forall s e r, run_on L fs p = Ok (s, e, r) ->
                     s <> [] /\ e = [] /\ r = []
                     /\ length s <> length e /\ length s <> length r)
      /\ ((forall sz, Collected size_re data sz -> Forall (within_limit L) sz) ->
          exists s, run_on L fs p = Ok (s, [], []) /\ s <> []))
  /\ (forall t, t = [] \/ t = [newline] ->
        fs p = Some (txt "size=10" ++ t) -> run_on L fs p = Ok ([10%Z], [], [])).
Proof.
  split.
  - intros data Hfs (a & d & b & Hd & Hne & Hdig) He Hr.
    rewrite (run_on_found L fs p data Hfs).
    assert (Esz : findall size_re data <> []).
    { destruct d as [|c d]; [congruence|]. simpl in Hdig.
      apply andb_true_iff in Hdig as [Hc _].
      apply (findall_token (txt "size=") Py.is_digit data a c (d ++ b)); auto. }
    assert (Eel : findall elapsed_re data = []).
    { apply (findall_no_token (txt "elapsed: ") digit_or_dot).
      intros (x & y & ->). apply He. exists x, (" "%char :: y). reflexivity. }
    assert (Ert : findall rate_re data = []).
    { apply (findall_no_token (txt "rate: ") digit_or_dot).
      intros (x & y & ->). apply Hr. exists x, (" "%char :: y). reflexivity. }
    split.
    + intros s e r H. apply convert_ok in H as (H1 & H2 & H3).
      rewrite Eel in H2. rewrite Ert in H3. simpl in H2, H3.
      injection H2 as <-. injection H3 as <-.
      assert (Hs : s <> []).
      { intros ->. apply list_map_length in H1.
        destruct (findall size_re data); [congruence | discriminate]. }
      repeat split; auto; destruct s; simpl; congruence.
    + intros Hlim.
      assert (Hall : Forall (fun c => exists z, Py.int L c = Ok z)
                       (findall size_re data)).
      { specialize (Hlim _ (proj2 (Collected_size data _) eq_refl)).
        pose proof (size_captures data) as Hcap.
        rewrite Forall_forall in *. intros c Hc.
        destruct (Hcap c Hc) as [Hn Hdg]. eexists.
        apply int_short; auto. apply (Hlim c Hc). }
      apply list_map_all in Hall as [s Hs]. exists s. split.
      * apply convert_ok. rewrite Eel, Ert. auto.
      * intros ->. apply list_map_length in Hs.
        destruct (findall size_re data); [congruence | discriminate].
  - intros t [-> | ->] H; rewrite (run_on_found L fs p _ H);
      vm_compute; reflexivity.
Qed.

Lemma C5_size_only_witness :
  one_file log_path (txt "size=10") log_path = Some (txt "size=10")
  /\ (exists a d b, txt "size=10" = a ++ txt "size=" ++ d ++ b
                    /\ d <> [] /\ forallb Py.is_digit d = true)
  /\ ~ has_token (txt "elapsed:") (txt "size=10")
  /\ ~ has_token (txt "rate:") (txt "size=10")
  /\ exists s, run_on 4300 (one_file log_path (txt "size=10")) log_path
               = Ok (s, [], []) /\ s <> [].
Proof.
  assert (Hno : forall tok x, In x tok -> ~ In x (txt "size=10") ->
                              ~ has_token tok (txt "size=10")).
  { intros tok x Hx Hn (a & b & E). apply Hn. rewrite E.
    apply in_or_app. right. apply in_or_app. now left. }
  assert (H1 : exists a d b, txt "size=10" = a ++ txt "size=" ++ d ++ b
                             /\ d <> [] /\ forallb Py.is_digit d = true).
  { exists [], (txt "10"), []. repeat split. discriminate. }
  assert (H2 : ~ has_token (txt "elapsed:") (txt "size=10")).
  { apply (Hno _ "l"%char); vm_compute; intuition discriminate. }
  assert (H3 : ~ has_token (txt "rate:") (txt "size=10")).
  { apply (Hno _ "r"%char); vm_compute; intuition discriminate. }
  repeat (split; [assumption || reflexivity|]).
  apply (proj1 (C5_size_only 4300 (one_file log_path (txt "size=10")) log_path)
           (txt "size=10") eq_refl H1 H2 H3).
  intros sz Hsz. apply Collected_size in Hsz. subst sz.
  vm_compute findall. constructor; [|constructor].
  right. left. vm_compute. discriminate.
Defined.

(** C5, as stated, fails: a size written with 4301 digits is a [size=]
    token followed by digits in a file without the other two tokens, and
    under the interpreter's default limit of 4300 digits the function
    raises instead of returning sequences. *)
Lemma C5_counterexample :
  (exists a d b, long_size 4301 = a ++ txt "size=" ++ d ++ b
                 /\ d <> [] /\ forallb Py.is_digit d = true)
  /\ ~ has_token (txt "elapsed:") (long_size 4301)
  /\ ~ has_token (txt "rate:") (long_size 4301)
  /\ run_on 4300 (one_file log_path (long_size 4301)) log_path = Raise ValueError
  /\ ~ (exists s e r,
          run_on 4300 (one_file log_path (long_size 4301)) log_path = Ok (s, e, r)).
Proof.
  assert (Hno : forall tok x, In x tok -> ~ In x (txt "size=") -> x <> "1"%char ->
                              ~ has_token tok (long_size 4301)).
  { intros tok x Hx H5 H1 (a & b & E).
    assert (H : In x (long_size 4301)).
    { rewrite E. apply in_or_app. right. apply in_or_app. now left. }
    apply in_app_or in H as [H | H]; [auto|].
    apply repeat_spec in H. congruence. }
  assert (Hraise : run_on 4300 (one_file log_path (long_size 4301)) log_path
                   = Raise ValueError) by (vm_compute; reflexivity).
  repeat apply conj.
  - exists [], (repeat "1"%char 4301), [].
    split; [unfold long_size; now rewrite app_nil_r|].
    split; [discriminate | vm_compute; reflexivity].
  - apply (Hno _ "l"%char); [vm_compute; tauto | | discriminate].
    vm_compute. intuition discriminate.
  - apply (Hno _ "r"%char); [vm_compute; tauto | | discriminate].
    vm_compute. intuition discriminate.
  - exact Hraise.
  - intros (s & e & r & H). rewrite Hraise in H. discriminate.
Qed.

(** C6, as amended.  Whenever the function returns, a [size=] value with
    leading zeros, wherever it stands in the text, gives among the sizes
    the integer of its digits, the zeros not counting ([size=007] parses to
    7).  [int] converts such a value when the number of its digits, zeros
    included, is within the interpreter's limit; on a longer one [int]
    raises [ValueError] and so does the call.  Whenever the function
    returns, a [rate:] value written in decimal form, wherever it stands,
    gives among the rates the float that [float] reads it as: for digits,
    a point and digits, the number written, rounded to binary64
    ([rate: 6.7] parses to the binary64 number nearest to 6.7).  A value in
    scientific form is not read whole: a capture holds digits and points
    only, so it ends before the exponent marker and only the digits and
    points before the exponent are converted; [rate: 1.5e3] gives 1.5. *)
Theorem C6_numeric_conversion (L : N) fs p :
  (forall t, t = [] \/ t = [newline] ->
     fs p = Some (txt "size=007" ++ t) -> run_on L fs p = Ok ([7%Z], [], []))
  /\ (forall k d t,
        d <> [] -> forallb Py.is_digit d = true ->
        within_limit L (repeat "0"%char k ++ d) -> t = [] \/ t = [newline] ->
        fs p = Some (txt "size=" ++ (repeat "0"%char k ++ d) ++ t) ->
        run_on L fs p = Ok ([Z.of_N (decimal_value d)], [], []))
  /\ (forall t, t = [] \/ t = [newline] ->
      fs p = Some (txt "rate: 6.7" ++ t) ->
      run_on L fs p = Ok ([], [], [f_6_7]) /\ nearest_to 67 10 f_6_7)
  /\ (forall c v t,
        forallb digit_or_dot c = true -> Py.float c = Ok v ->
        t = [] \/ t = [newline] ->
        fs p = Some (txt "rate: " ++ c ++ t) ->
        run_on L fs p = Ok ([], [], [v]))
  /\ (forall ip fp,
        ip <> [] -> forallb Py.is_digit ip = true ->
        forallb Py.is_digit fp = true ->
        Py.float (ip ++ "."%char :: fp)
        = Ok (Py.of_decimal false (decimal_value (ip ++ fp))
                (- Z.of_nat (length fp))))
  /\ (forall t, t = [] \/ t = [newline] ->
      fs p = Some (txt "rate: 1.5e3" ++ t) ->
      run_on L fs p = Ok ([], [], [f_1_5]))
  /\ (forall data s e r a k d b,
        fs p = Some data -> run_on L fs p = Ok (s, e, r) ->
        data = a ++ txt "size=" ++ (repeat "0"%char k ++ d) ++ b ->
        d <> [] -> forallb Py.is_digit d = true -> stops Py.is_digit b ->
        In (Z.of_N (decimal_value d)) s)
  /\ (forall k d,
        d <> [] -> forallb Py.is_digit d = true ->
        (within_limit L (repeat "0"%char k ++ d) ->
         Py.int L (repeat "0"%char k ++ d) = Ok (Z.of_N (decimal_value d)))
        /\ (~ within_limit L (repeat "0"%char k ++ d) ->
            Py.int L (repeat "0"%char k ++ d) = Raise ValueError))
  /\ (forall data s e r a c b,
        fs p = Some data -> run_on L fs p = Ok (s, e, r) ->
        data = a ++ txt "rate: " ++ c ++ b ->
        c <> [] -> forallb digit_or_dot c = true -> stops digit_or_dot b ->
        Py.float c = Ok (float_value c) /\ In (float_value c) r)
  /\ (forall data s e r a c m rest,
        fs p = Some data -> run_on L fs p = Ok (s, e, r) ->
        data = a ++ txt "rate: " ++ c ++ m :: rest ->
        c <> [] -> forallb digit_or_dot c = true -> Py.is_e m = true ->
        Py.float c = Ok (float_value c) /\ In (float_value c) r)
  /\ (forall data rt c m,
        Collected rate_re data rt -> In c rt -> Py.is_e m = true ->
        forallb digit_or_dot c = true /\ ~ In m c)
  /\ (forall c v m x t,
        forallb digit_or_dot c = true -> Py.float c = Ok v ->
        Py.is_e m = true -> forallb exponent_char x = true ->
        t = [] \/ t = [newline] ->
        fs p = Some (txt "rate: " ++ c ++ (m :: x) ++ t) ->
        run_on L fs p = Ok ([], [], [v]))
  /\ (forall data a k d b,
        fs p = Some data ->
        data = a ++ txt "size=" ++ (repeat "0"%char k ++ d) ++ b ->
        d <> [] -> forallb Py.is_digit d = true -> stops Py.is_digit b ->
        ~ within_limit L (repeat "0"%char k ++ d) ->
        run_on L fs p = Raise ValueError)
  /\ (forall data s e r a ip fp b,
        fs p = Some data -> run_on L fs p = Ok (s, e, r) ->
        data = a ++ txt "rate: " ++ (ip ++ "."%char :: fp) ++ b ->
        ip <> [] -> forallb Py.is_digit ip = true ->
        forallb Py.is_digit fp = true -> stops digit_or_dot b ->
        In (Py.of_decimal false (decimal_value (ip ++ fp))
              (- Z.of_nat (length fp))) r).
Proof.
  repeat apply conj.
  - intros t [-> | ->] H; rewrite (run_on_found L fs p _ H);
      vm_compute; reflexivity.
  - intros k d t Hne Hd Hl Ht H. rewrite (run_on_found L fs p _ H).
    rewrite size_alone; auto.
    + now rewrite decimal_value_zeros.
    + destruct k; simpl; [auto | discriminate].
    + rewrite forallb_app, Hd, andb_true_r. clear.
      induction k; simpl; auto.
  - intros t Ht H. rewrite (run_on_found L fs p _ H). split.
    + destruct Ht as [-> | ->]; vm_compute; reflexivity.
    + repeat split; vm_compute; congruence.
  - intros c v t Hc Hv Ht H. rewrite (run_on_found L fs p _ H).
    now apply rate_alone.
  - intros ip fp Hne Hip Hfp. now apply float_decimal.
  - intros t [-> | ->] H; rewrite (run_on_found L fs p _ H);
      vm_compute; reflexivity.
  - intros data s e r a k d b Hfs H Hd Hne Hdig Hb.
    rewrite (run_on_found L fs p _ Hfs) in H.
    rewrite <- (decimal_value_zeros k d).
    apply (size_token_value L data s e r a _ b H Hd); auto.
    + destruct k; simpl; [auto | discriminate].
    + rewrite forallb_app, Hdig, andb_true_r. clear.
      induction k; simpl; auto.
  - intros k d Hne Hdig.
    assert (Hne' : repeat "0"%char k ++ d <> []).
    { destruct k; simpl; [auto | discriminate]. }
    assert (Hall : forallb Py.is_digit (repeat "0"%char k ++ d) = true).
    { rewrite forallb_app, Hdig, andb_true_r. clear.
      induction k; simpl; auto. }
    split; intros Hl.
    + rewrite <- (decimal_value_zeros k d). now apply int_short.
    + rewrite int_digits by assumption.
      destruct (Py.too_long L _) eqn:E; auto.
      exfalso. apply Hl. now apply too_long_spec.
  - intros data s e r a c b Hfs H Hd Hne Hc Hb.
    rewrite (run_on_found L fs p _ Hfs) in H.
    apply (rate_token_value L data s e r a c b H Hd Hne Hc Hb).
  - intros data s e r a c m rest Hfs H Hd Hne Hc Hm.
    rewrite (run_on_found L fs p _ Hfs) in H.
    apply (rate_token_value L data s e r a c (m :: rest) H Hd Hne Hc).
    now apply marker_stops.
  - intros data rt c m H Hin Hm.
    apply Collected_rate in H. subst rt.
    pose proof (rate_captures data) as Hcap. rewrite Forall_forall in Hcap.
    destruct (Hcap c Hin) as [Hne Hc]. split; [exact Hc|].
    intros Hmc. rewrite forallb_forall in Hc. apply Hc in Hmc.
    destruct (marker_stops m [] Hm) as [E | (y & t & E & Hy)]; [discriminate|].
    injection E as <- _. congruence.
  - intros c v m x t Hc Hv Hm Hx Ht Hfs.
    rewrite (run_on_found L fs p _ Hfs). now apply rate_then_exponent.
  - intros data a k d b Hfs Hd Hne Hdig Hb Hl.
    rewrite (run_on_found L fs p _ Hfs).
    apply (size_token_beyond L data a _ b Hd); auto.
    + destruct k; simpl; [auto | discriminate].
    + rewrite forallb_app, Hdig, andb_true_r. clear.
      induction k; simpl; auto.
  - intros data s e r a ip fp b Hfs H Hd Hne Hip Hfp Hb.
    rewrite (run_on_found L fs p _ Hfs) in H.
    apply (rate_token_decimal L data s e r a ip fp b H Hd Hne Hip Hfp Hb).
Qed.

Lemma C6_numeric_conversion_witness :
  one_file log_path (txt "size=007") log_path = Some (txt "size=007")
  /\ run_on 4300 (one_file log_path (txt "size=007")) log_path = Ok ([7%Z], [], []).
Proof.
  split; [reflexivity|].
  apply (proj1 (C6_numeric_conversion 4300 (one_file log_path (txt "size=007"))
                  log_path) []).
  - now left.
  - reflexivity.
Defined.

(** C6, as stated, fails on the scientific form: the class [[\d.]] stops
    the capture before the exponent, so [rate: 1.5e3] is read as 1.5 and
    not as the 1500.0 that [float] makes of [1.5e3]. *)
Lemma C6_counterexample :
  Collected rate_re (txt "rate: 1.5e3") [txt "1.5"]
  /\ run_on 4300 (one_file log_path (txt "rate: 1.5e3")) log_path
     = Ok ([], [], [f_1_5])
  /\ Py.float (txt "1.5e3") = Ok f_1500
  /\ f_1_5 <> f_1500.
Proof.
  repeat apply conj.
  - apply Collected_rate. vm_compute. reflexivity.
  - vm_compute. reflexivity.
  - vm_compute. reflexivity.
  - discriminate.
Qed.

(** C7.  Parsing is deterministic and keeps no state: a call leaves the
    world as it found it, a second call returns what the first returned,
    and two calls that find the same under their paths, whatever the rest
    of their worlds, end the same.  Under two settings of the interpreter's
    limit on the digits the two returned triples are still identical: the
    setting decides only whether a call returns or raises [ValueError]. *)
Theorem C7_deterministic (L : N) p w :
  snd (parse_benchmark_log L p w) = w
  /\ fst (parse_benchmark_log L p (snd (parse_benchmark_log L p w)))
     = fst (parse_benchmark_log L p w)
  /\ (forall p' w', files w' p' = files w p ->
        fst (parse_benchmark_log L p' w') = fst (parse_benchmark_log L p w))
  /\ (forall L' p' w' t t',
        files w' p' = files w p ->
        fst (parse_benchmark_log L p w) = Ok t ->
        fst (parse_benchmark_log L' p' w') = Ok t' -> t' = t)
  /\ (forall L' p' w',
        files w' p' = files w p ->
        fst (parse_benchmark_log L' p' w') = fst (parse_benchmark_log L p w)
        \/ fst (parse_benchmark_log L p w) = Raise ValueError
        \/ fst (parse_benchmark_log L' p' w') = Raise ValueError).
Proof.
  assert (Hsnd : snd (parse_benchmark_log L p w) = w).
  { destruct (files w p) as [e|e|data] eqn:E.
    - now rewrite (parse_no_open L p w e E).
    - now rewrite (parse_no_read L p w e E).
    - now rewrite (parse_found L p w data E). }
  repeat apply conj; auto.
  - now rewrite Hsnd.
  - intros p' w' H. destruct (files w p) as [e|e|data] eqn:E.
    + now rewrite (parse_no_open L p w e E), (parse_no_open L p' w' e H).
    + now rewrite (parse_no_read L p w e E), (parse_no_read L p' w' e H).
    + now rewrite (parse_found L p w data E), (parse_found L p' w' data H).
  - intros L' p' w' t t' H. destruct (files w p) as [e|e|data] eqn:E.
    + rewrite (parse_no_open L p w e E). discriminate.
    + rewrite (parse_no_read L p w e E). discriminate.
    + rewrite (parse_found L p w data E), (parse_found L' p' w' data H).
      simpl. intros H1 H2. apply (convert_same_value L' L data t' t H2 H1).
  - intros L' p' w' H. destruct (files w p) as [e|e|data] eqn:E.
    + left. now rewrite (parse_no_open L p w e E), (parse_no_open L' p' w' e H).
    + left. now rewrite (parse_no_read L p w e E), (parse_no_read L' p' w' e H).
    + rewrite (parse_found L p w data E), (parse_found L' p' w' data H). simpl.
      destruct (convert L data) as [t|x] eqn:E1.
      * destruct (convert L' data) as [t'|x'] eqn:E2.
        -- left. now rewrite (convert_same_value L' L data t' t E2 E1).
        -- right. right. now rewrite (convert_raises L' data x' E2).
      * right. left. now rewrite (convert_raises L data x E1).
Qed.

(** C8.  On a file whose [elapsed:] or [rate:] pattern captures text that
    is no number (no digit, or more than one point), as [rate: ...] does,
    the function raises [ValueError] and returns no result: nothing in the
    function catches the failure of the conversion. *)
Theorem C8_malformed_number_raises (L : N) fs p :
  (fs p = Some (txt "rate: ...") ->
   Collected rate_re (txt "rate: ...") [txt "..."]
   /\ Py.float (txt "...") = Raise ValueError
   /\ run_on L fs p = Raise ValueError)
  /\ (forall data el rt c,
        fs p = Some data ->
        Collected elapsed_re data el -> Collected rate_re data rt ->
        In c (el ++ rt) -> plain_decimal c = false ->
        Py.float c = Raise ValueError /\ run_on L fs p = Raise ValueError).
Proof.
  split.
  - intros H. rewrite (run_on_found L fs p _ H). repeat apply conj.
    + apply Collected_rate. vm_compute. reflexivity.
    + vm_compute. reflexivity.
    + vm_compute. reflexivity.
  - intros data el rt c Hfs C2 C3 Hin Hbad.
    apply Collected_elapsed in C2. apply Collected_rate in C3. subst el rt.
    rewrite (run_on_found L fs p data Hfs).
    assert (Hc : forallb digit_or_dot c = true).
    { pose proof (elapsed_captures data) as H2.
      pose proof (rate_captures data) as H3.
      rewrite Forall_forall in H2, H3.
      apply in_app_or in Hin as [Hin | Hin]; [apply (H2 c Hin) | apply (H3 c Hin)]. }
    pose proof (float_malformed c Hc Hbad) as Hf. split; auto.
    destruct (convert L data) as [[[s e] r]|x] eqn:E.
    + exfalso. apply convert_ok in E as (_ & E2 & E3).
      apply in_app_or in Hin as [Hin | Hin].
      * rewrite (list_map_fails Py.float _ c Hin Hf float_raises) in E2.
        discriminate.
      * rewrite (list_map_fails Py.float _ c Hin Hf float_raises) in E3.
        discriminate.
    + now rewrite (convert_raises L data x E).
Qed.

Lemma C8_malformed_number_raises_witness :
  one_file log_path (txt "rate: ...") log_path = Some (txt "rate: ...")
  /\ run_on 4300 (one_file log_path (txt "rate: ...")) log_path = Raise ValueError.
Proof.
  split; [reflexivity|].
  apply (C8_malformed_number_raises 4300 (one_file log_path (txt "rate: ..."))
           log_path).
  reflexivity.
Defined.

(** C9, as amended.  Every capture of [size=(\d+)] is a non-empty string of
    digits, and [int] succeeds on each of them that is within its limit on
    the digits (at most 640 digits, or at most [max_str_digits], or any
    number when that limit is 0); it raises only on a longer one.  When all
    the size captures are within the limit, a failure of a numeric
    conversion can only arise from an elapsed or a rate capture. *)
Theorem C9_size_conversion (L : N) data sz :
  Collected size_re data sz ->
  Forall (fun c => c <> [] /\ forallb Py.is_digit c = true
                   /\ (within_limit L c ->
                       Py.int L c = Ok (Z.of_N (decimal_value c)))
                   /\ (~ within_limit L c -> Py.int L c = Raise ValueError)) sz
  /\ (Forall (within_limit L) sz ->
      forall fs p el rt,
        fs p = Some data -> run_on L fs p = Raise ValueError ->
        Collected elapsed_re data el -> Collected rate_re data rt ->
        exists c, In c (el ++ rt) /\ Py.float c = Raise ValueError).
Proof.
  intros C1. apply Collected_size in C1. subst sz.
  pose proof (size_captures data) as Hcap. split.
  - rewrite Forall_forall in *. intros c Hc. destruct (Hcap c Hc) as [Hne Hd].
    repeat split; auto.
    + intros Hl. now apply int_short.
    + intros Hl. rewrite int_digits by auto.
      destruct (Py.too_long L (N.of_nat (length c))) eqn:E; auto.
      now apply too_long_spec in E.
  - intros Hl fs p el rt Hfs Hrun C2 C3.
    apply Collected_elapsed in C2. apply Collected_rate in C3. subst el rt.
    rewrite (run_on_found L fs p data Hfs) in Hrun.
    assert (Hall : Forall (fun c => exists z, Py.int L c = Ok z) (findall size_re data)).
    { rewrite Forall_forall in *. intros c Hc. destruct (Hcap c Hc) as [Hne Hd].
      eexists. apply int_short; auto. apply (Hl c Hc). }
    apply list_map_all in Hall as [s Hs].
    unfold convert in Hrun. rewrite Hs in Hrun.
    destruct (list_map Py.float (findall elapsed_re data)) as [e|x] eqn:E2.
    + destruct (list_map Py.float (findall rate_re data)) as [r|x] eqn:E3;
        [discriminate|].
      apply list_map_raise in E3 as (c & Hin & Hc).
      exists c. split; [apply in_or_app; now right|].
      now rewrite Hc, (float_raises c x Hc).
    + apply list_map_raise in E2 as (c & Hin & Hc).
      exists c. split; [apply in_or_app; now left|].
      now rewrite Hc, (float_raises c x Hc).
Qed.

Lemma C9_size_conversion_witness :
  Collected size_re two_lines [txt "10"; txt "20"]
  /\ Py.int 4300 (txt "10") = Ok 10%Z.
Proof.
  assert (C1 : Collected size_re two_lines [txt "10"; txt "20"])
    by (apply Collected_size; vm_compute; reflexivity).
  split; [exact C1|].
  destruct (C9_size_conversion 4300 two_lines _ C1) as [H _].
  inversion H as [|c l (_ & _ & Hc & _) _]; subst.
  apply Hc. right. left. vm_compute. discriminate.
Defined.

(** C9, as stated, fails: under the interpreter's default limit of 4300
    digits, [int] raises on the capture of a size written with 4301 digits,
    in a file that has no elapsed and no rate capture at all. *)
Lemma C9_counterexample :
  Collected size_re (long_size 4301) [repeat "1"%char 4301]
  /\ forallb Py.is_digit (repeat "1"%char 4301) = true
  /\ Py.int 4300 (repeat "1"%char 4301) = Raise ValueError
  /\ Collected elapsed_re (long_size 4301) []
  /\ Collected rate_re (long_size 4301) []
  /\ run_on 4300 (one_file log_path (long_size 4301)) log_path = Raise ValueError.
Proof.
  repeat apply conj.
  - apply Collected_size. vm_compute. reflexivity.
  - vm_compute. reflexivity.
  - vm_compute. reflexivity.
  - apply Collected_elapsed. vm_compute. reflexivity.
  - apply Collected_rate. vm_compute. reflexivity.
  - vm_compute. reflexivity.
Qed.

(** C10.  For every file text on which the function succeeds, every value
    of the three returned sequences is non-negative: each size is a natural
    number, and each elapsed and rate value is a float that is at least
    zero (so no NaN either). *)
Theorem C10_nonnegative (L : N) fs p data s e r :
  fs p = Some data -> run_on L fs p = Ok (s, e, r) ->
  Forall (fun z => (0 <= z)%Z) s
  /\ Forall (fun v => float_nonneg v = true) e
  /\ Forall (fun v => float_nonneg v = true) r.
Proof.
  intros Hfs H. rewrite (run_on_found L fs p data Hfs) in H.
  apply convert_ok in H as (H1 & H2 & H3). repeat apply conj.
  - eapply list_map_Forall; [ | apply (size_captures data) | exact H1].
    intros c z [Hne Hd] Hz. cbv beta. rewrite int_digits in Hz by auto.
    destruct (Py.too_long L _); [discriminate|].
    injection Hz as <-. lia.
  - eapply list_map_Forall; [ | apply (elapsed_captures data) | exact H2].
    intros c v [_ Hc] Hv. now apply (float_of_capture c).
  - eapply list_map_Forall; [ | apply (rate_captures data) | exact H3].
    intros c v [_ Hc] Hv. now apply (float_of_capture c).
Qed.

Lemma C10_nonnegative_witness :
  one_file log_path two_lines log_path = Some two_lines
  /\ run_on 4300 (one_file log_path two_lines) log_path
     = Ok ([10; 20]%Z, [f_1_5; f_3_0], [f_6_7; f_6_6])
  /\ Forall (fun z => (0 <= z)%Z) [10; 20]%Z
  /\ Forall (fun v => float_nonneg v = true) [f_1_5; f_3_0]
  /\ Forall (fun v => float_nonneg v = true) [f_6_7; f_6_6].
Proof.
  assert (Hrun : run_on 4300 (one_file log_path two_lines) log_path
                 = Ok ([10; 20]%Z, [f_1_5; f_3_0], [f_6_7; f_6_6]))
    by (vm_compute; reflexivity).
  split; [reflexivity|]. split; [exact Hrun|].
  exact (C10_nonnegative 4300 (one_file log_path two_lines) log_path two_lines
           _ _ _ eq_refl Hrun).
Defined.

(** * Further properties of the function *)

(** X1.  A piece of text is among the captures of a field exactly when it
    is written in the text as a value of that field: after the literal of
    the field, a non-empty run of characters of its class that the text
    does not continue.  No written value is missed, whatever surrounds it,
    and none is cut short. *)
Theorem X1_captured_iff_written data c :
  (In c (findall size_re data) <->
   exists a b, data = a ++ txt "size=" ++ c ++ b
               /\ c <> [] /\ forallb Py.is_digit c = true /\ stops Py.is_digit b)
  /\ (In c (findall elapsed_re data) <->
      exists a b, data = a ++ txt "elapsed: " ++ c ++ b
                  /\ c <> [] /\ forallb digit_or_dot c = true
                  /\ stops digit_or_dot b)
  /\ (In c (findall rate_re data) <->
      exists a b, data = a ++ txt "rate: " ++ c ++ b
                  /\ c <> [] /\ forallb digit_or_dot c = true
                  /\ stops digit_or_dot b).
Proof.
  rewrite findall_size, findall_elapsed, findall_rate.
  repeat apply conj.
  1, 3, 5: apply tokens_sound.
  all: intros (a & b & -> & Hne & Hc & Hb); apply tokens_complete; auto;
    discriminate.
Qed.

(** X2.  The three lists of captures are the fields of the text read
    position by position, in the order of the text and one for each
    position at which the literal of the field stands before a character of
    its class: skipping over a match, as [findall] does, loses nothing. *)
Theorem X2_captures_are_fields data :
  findall size_re data = tokens (txt "size=") Py.is_digit data
  /\ findall elapsed_re data = tokens (txt "elapsed: ") digit_or_dot data
  /\ findall rate_re data = tokens (txt "rate: ") digit_or_dot data.
Proof.
  repeat apply conj; [apply findall_size | apply findall_elapsed | apply findall_rate].
Qed.

(** X3.  Logs compose line by line: the result for a text that ends with a
    line feed followed by a second text is the result for the first joined
    to the result for the second, sequence by sequence; it is an error as
    soon as one of the two is. *)
Theorem X3_lines_compose (L : N) fs1 p1 fs2 p2 fs p a b :
  fs1 p1 = Some (a ++ [newline]) -> fs2 p2 = Some b ->
  fs p = Some (a ++ newline :: b) ->
  run_on L fs p = result_app (run_on L fs1 p1) (run_on L fs2 p2).
Proof.
  intros H1 H2 H.
  rewrite (run_on_found L fs p _ H), (run_on_found L fs1 p1 _ H1),
    (run_on_found L fs2 p2 _ H2).
  apply convert_lines.
Qed.

Lemma X3_lines_compose_witness :
  run_on 4300 (one_file log_path (txt "size=1 rate: 2" ++ newline :: txt "size=3"))
    log_path
  = result_app
      (run_on 4300 (one_file log_path (txt "size=1 rate: 2" ++ [newline])) log_path)
      (run_on 4300 (one_file log_path (txt "size=3")) log_path).
Proof.
  apply (X3_lines_compose 4300
           (one_file log_path (txt "size=1 rate: 2" ++ [newline])) log_path
           (one_file log_path (txt "size=3")) log_path
           (one_file log_path (txt "size=1 rate: 2" ++ newline :: txt "size=3"))
           log_path (txt "size=1 rate: 2") (txt "size=3"));
    reflexivity.
Defined.

(** X4.  On a log written record by record, each line
    [size=<digits> elapsed: <decimal> rate: <decimal>] with numbers that the
    conversions read, the function returns the three sequences aligned: as
    many entries in each as the log has lines, the i-th entries being the
    numbers of the i-th line. *)
Theorem X4_aligned_on_records (L : N) fs p xs :
  Forall (well_formed L) xs -> fs p = Some (log_of xs) ->
  run_on L fs p
  = Ok (map (fun x => Z.of_N (decimal_value (size_text x))) xs,
        map (fun x => float_value (elapsed_text x)) xs,
        map (fun x => float_value (rate_text x)) xs).
Proof.
  intros Hwf Hfs. rewrite (run_on_found L fs p _ Hfs). clear Hfs.
  induction Hwf as [|x xs Hx _ IH]; [reflexivity|].
  change (log_of (x :: xs)) with (entry_line x ++ log_of xs).
  assert (Eb : entry_line x
               = (txt "size=" ++ size_text x ++ txt " elapsed: " ++ elapsed_text x
                    ++ txt " rate: " ++ rate_text x) ++ [newline]).
  { unfold entry_line. now rewrite <- !app_assoc. }
  rewrite Eb at 1. rewrite <- app_assoc.
  change ([newline] ++ log_of xs) with (newline :: log_of xs).
  rewrite convert_lines, <- Eb.
  now rewrite (convert_line L x Hx), IH.
Qed.

Lemma X4_aligned_on_records_witness :
  one_file log_path two_lines log_path
  = Some (log_of [Entry (txt "10") (txt "1.5") (txt "6.7");
                  Entry (txt "20") (txt "3.0") (txt "6.6")])
  /\ run_on 4300 (one_file log_path two_lines) log_path
     = Ok ([10; 20]%Z, [f_1_5; f_3_0], [f_6_7; f_6_6]).
Proof.
  split; [reflexivity|].
  rewrite (X4_aligned_on_records 4300 (one_file log_path two_lines) log_path
             [Entry (txt "10") (txt "1.5") (txt "6.7");
              Entry (txt "20") (txt "3.0") (txt "6.6")]).
  - vm_compute. reflexivity.
  - constructor; [|constructor; [|constructor]];
      (unfold well_formed; cbn [size_text elapsed_text rate_text];
       repeat apply conj; try reflexivity; try discriminate;
       right; left; vm_compute; discriminate).
  - reflexivity.
Defined.

(** X5.  The outcomes of a call, and when each arises.  An exception that
    [open] or [read] raises for the path ([FileNotFoundError] for a name
    without a file, and whatever else the system answers) ends the call
    as it is, nothing being caught.  Once the text is read, the call returns exactly if every
    size capture is within what [int] converts and every elapsed and rate
    capture is a plain decimal (a digit, at most one point); otherwise it
    raises [ValueError].  In every case the file is closed again: the
    world is as before the call. *)
Theorem X5_outcomes (L : N) p w :
  (forall e, files w p = NoOpen e ->
             parse_benchmark_log L p w = (Raise e, w))
  /\ (forall e, files w p = NoRead e ->
                parse_benchmark_log L p w = (Raise e, w))
  /\ (forall data,
        files w p = Content data ->
        (Forall (within_limit L) (findall size_re data)
         /\ Forall (fun c => plain_decimal c = true)
              (findall elapsed_re data ++ findall rate_re data) ->
         exists res, parse_benchmark_log L p w = (Ok res, w))
        /\ (~ (Forall (within_limit L) (findall size_re data)
               /\ Forall (fun c => plain_decimal c = true)
                    (findall elapsed_re data ++ findall rate_re data)) ->
            parse_benchmark_log L p w = (Raise ValueError, w))).
Proof.
  split; [intros e; apply parse_no_open|].
  split; [intros e; apply parse_no_read|].
  intros data Hfs. rewrite (parse_found L p w data Hfs).
  pose proof (size_captures data) as Hs.
  pose proof (elapsed_captures data) as He.
  pose proof (rate_captures data) as Hr.
  split.
  - intros [H1 H2]. apply Forall_app in H2 as [H2 H3].
    assert (A1 : exists s, list_map (Py.int L) (findall size_re data) = Ok s).
    { apply list_map_all. rewrite Forall_forall in *. intros c Hc.
      destruct (Hs c Hc). eexists. apply int_short; auto. now apply H1. }
    assert (A2 : exists e, list_map Py.float (findall elapsed_re data) = Ok e).
    { apply list_map_all. rewrite Forall_forall in *. intros c Hc.
      destruct (He c Hc) as [_ Hcl].
      destruct (float_plain c Hcl (H2 c Hc)) as (v & Hv & _). eauto. }
    assert (A3 : exists r, list_map Py.float (findall rate_re data) = Ok r).
    { apply list_map_all. rewrite Forall_forall in *. intros c Hc.
      destruct (Hr c Hc) as [_ Hcl].
      destruct (float_plain c Hcl (H3 c Hc)) as (v & Hv & _). eauto. }
    destruct A1 as [s A1], A2 as [e A2], A3 as [r A3].
    exists (s, e, r). f_equal. apply convert_ok. auto.
  - intros Hnot. f_equal.
    destruct (convert L data) as [[[s e] r]|x] eqn:E.
    + exfalso. apply Hnot. apply convert_ok in E as (E1 & E2 & E3).
      apply list_map_each in E1, E2, E3. split; [|apply Forall_app; split].
      * rewrite Forall_forall in *. intros c Hc.
        destruct (Hs c Hc) as [Hne Hd]. destruct (E1 c Hc) as [z Hz].
        now apply (int_ok_within L c z).
      * rewrite Forall_forall in *. intros c Hc.
        destruct (He c Hc) as [_ Hcl]. destruct (E2 c Hc) as [v Hv].
        now apply (float_ok_plain c v).
      * rewrite Forall_forall in *. intros c Hc.
        destruct (Hr c Hc) as [_ Hcl]. destruct (E3 c Hc) as [v Hv].
        now apply (float_ok_plain c v).
    + now rewrite (convert_raises L data x E).
Qed.

Lemma X5_outcomes_witness :
  parse_benchmark_log 4300 (txt "column-major-1.txt")
    (World (plain (one_file log_path two_lines)) [])
  = (Raise FileNotFoundError, World (plain (one_file log_path two_lines)) []).
Proof.
  apply (proj1 (X5_outcomes 4300 (txt "column-major-1.txt")
                  (World (plain (one_file log_path two_lines)) []))).
  reflexivity.
Defined.

(** X6.  A size written in decimal notation is read back as the number
    written: for every natural number [n] whose digits are within what
    [int] converts, the one-field log [size=<n>] gives the sizes [[n]]. *)
Theorem X6_size_round_trip (L : N) fs p (n : N) t :
  within_limit L (decimal_text n) -> t = [] \/ t = [newline] ->
  fs p = Some (txt "size=" ++ decimal_text n ++ t) ->
  run_on L fs p = Ok ([Z.of_N n], [], []).
Proof.
  intros Hl Ht Hfs. rewrite (run_on_found L fs p _ Hfs).
  rewrite size_alone; auto.
  - now rewrite decimal_text_value.
  - apply decimal_text_nonempty.
  - apply uint_text_digits.
Qed.

Lemma X6_size_round_trip_witness :
  within_limit 4300 (decimal_text 2048)
  /\ run_on 4300 (one_file log_path (txt "size=" ++ decimal_text 2048 ++ []))
       log_path
     = Ok ([2048%Z], [], []).
Proof.
  assert (Hl : within_limit 4300 (decimal_text 2048))
    by (right; left; vm_compute; discriminate).
  split; [exact Hl|].
  apply (X6_size_round_trip 4300
           (one_file log_path (txt "size=" ++ decimal_text 2048 ++ []))
           log_path 2048 [] Hl).
  - now left.
  - reflexivity.
Defined.

(** X7.  The sequences are short against the text: every size takes at
    least 6 characters of it, every elapsed value at least 10 and every
    rate at least 7, so a text of [n] characters gives at most [n / 6]
    sizes, [n / 10] elapsed values and [n / 7] rates. *)
Theorem X7_length_bounds (L : N) fs p data s e r :
  fs p = Some data -> run_on L fs p = Ok (s, e, r) ->
  6 * length s <= length data
  /\ 10 * length e <= length data
  /\ 7 * length r <= length data.
Proof.
  intros Hfs H. rewrite (run_on_found L fs p data Hfs) in H.
  apply convert_ok in H as (H1 & H2 & H3).
  apply list_map_length in H1, H2, H3. unfold pyfloat in *.
  rewrite H1, H2, H3. repeat apply conj.
  - apply (findall_bound (txt "size=") Py.is_digit).
  - apply (findall_bound (txt "elapsed: ") digit_or_dot).
  - apply (findall_bound (txt "rate: ") digit_or_dot).
Qed.

Lemma X7_length_bounds_witness :
  one_file log_path two_lines log_path = Some two_lines
  /\ run_on 4300 (one_file log_path two_lines) log_path
     = Ok ([10; 20]%Z, [f_1_5; f_3_0], [f_6_7; f_6_6])
  /\ 6 * length [10; 20]%Z <= length two_lines
  /\ 10 * length [f_1_5; f_3_0] <= length two_lines
  /\ 7 * length [f_6_7; f_6_6] <= length two_lines.
Proof.
  assert (Hrun : run_on 4300 (one_file log_path two_lines) log_path
                 = Ok ([10; 20]%Z, [f_1_5; f_3_0], [f_6_7; f_6_6]))
    by (vm_compute; reflexivity).
  split; [reflexivity|]. split; [exact Hrun|].
  exact (X7_length_bounds 4300 (one_file log_path two_lines) log_path two_lines
           _ _ _ eq_refl Hrun).
Defined.
